(** * factorio-downloader: version reconciliation and download orchestration

  A shallow embedding of [main.py].  Python integers are unbounded and are
  modelled by [Z]; [str] values are modelled by [string] restricted to
  ASCII text (the interpreter's configurable limit on the number of digits
  of an integer conversion is not modelled).  Exceptions are values of
  [exn]; stateful code runs in a small state-and-exception monad over the
  file system, the HTTP request log and the progress display.  The file
  system is a map from names to contents: the output and temporary
  directories are taken to exist and to lie on one file system.  [main]
  is embedded from the line after [parser.parse_args()]: the parsed
  arguments are its input. *)

From Stdlib Require Import ZArith Ascii String List Bool Lia.
From stdpp Require Import base option gmap strings list.

Local Open Scope string_scope.
Local Open Scope Z_scope.

(** ** Python built-ins used by the program *)

Module Py.

(** The exceptions that the program can raise or let through. *)
Inductive exn :=
| ValueError
| IndexError
| KeyError
| FileNotFoundError
| ClientError                          (* aiohttp: transport or decoding failure *)
| ClientResponseError (status : Z)     (* aiohttp: raise_for_status *)
| SystemExit (code : Z)                (* sys.exit *)
| ExceptionGroup (inner : exn).        (* asyncio.TaskGroup: a task raised *)

Inductive result (A : Type) :=
| Ok (a : A)
| Raise (e : exn).
Arguments Ok {A} a.
Arguments Raise {A} e.

Definition code (c : ascii) : N := N_of_ascii c.

(** [Py_ISSPACE]: the blanks that [int] skips around a number. *)
Definition is_c_space (c : ascii) : bool :=
  ((9 <=? code c) && (code c <=? 13) || (code c =? 32))%N.

(** [str.isspace] on ASCII: the blanks that [str.split()] and
    [str.strip()] treat as separators. *)
Definition is_str_space (c : ascii) : bool :=
  is_c_space c || ((28 <=? code c) && (code c <=? 31))%N.

Definition digit_of (c : ascii) : option Z :=
  if ((48 <=? code c) && (code c <=? 57))%N
  then Some (Z.of_N (code c) - 48) else None.

Definition digit_char (d : Z) : ascii := ascii_of_N (Z.to_N (48 + d)).

Fixpoint lstrip (sp : ascii -> bool) (s : string) : string :=
  match s with
  | String c s' => if sp c then lstrip sp s' else s
  | EmptyString => EmptyString
  end.

Fixpoint rstrip (sp : ascii -> bool) (s : string) : string :=
  match s with
  | EmptyString => EmptyString
  | String c s' =>
      match rstrip sp s' with
      | EmptyString => if sp c then EmptyString else String c EmptyString
      | r => String c r
      end
  end.

Definition strip (sp : ascii -> bool) (s : string) : string :=
  rstrip sp (lstrip sp s).

(** Decimal digits, with single underscores allowed between two digits.
    [sep] records that the previous position was not a digit. *)
Fixpoint parse_digits (s : string) (acc : Z) (sep : bool) : option Z :=
  match s with
  | EmptyString => if sep then None else Some acc
  | String c s' =>
      if Ascii.eqb c "_"
      then (if sep then None else parse_digits s' acc true)
      else match digit_of c with
           | Some d => parse_digits s' (10 * acc + d) false
           | None => None
           end
  end.

(** [int(s)] for a string argument, base ten. *)
Definition int (s : string) : result Z :=
  let t := strip is_c_space s in
  let r := match t with
           | String c u =>
               if Ascii.eqb c "-" then Z.opp <$> parse_digits u 0 true
               else if Ascii.eqb c "+" then parse_digits u 0 true
               else parse_digits t 0 true
           | EmptyString => None
           end in
  match r with
  | Some n => Ok n
  | None => Raise ValueError
  end.

(** Digits of a non-negative integer, most significant first. *)
Fixpoint digits_aux (fuel : nat) (n : Z) (acc : string) : string :=
  let acc' := String (digit_char (n mod 10)) acc in
  match fuel with
  | O => acc'
  | S f => if n <? 10 then acc' else digits_aux f (n / 10) acc'
  end.

Definition digits (n : Z) : string :=
  digits_aux (Z.to_nat (Z.log2 n)) n EmptyString.

(** [str(n)] for an integer. *)
Definition str_int (n : Z) : string :=
  if n <? 0 then String "-" (digits (- n)) else digits n.

(** [s.split(sep)] for a one-character separator: empty fields are kept. *)
Fixpoint split_on (sep : ascii) (s : string) : list string :=
  match s with
  | EmptyString => [EmptyString]
  | String c s' =>
      if Ascii.eqb c sep then EmptyString :: split_on sep s'
      else match split_on sep s' with
           | h :: t => String c h :: t
           | [] => [String c EmptyString]
           end
  end.

(** [s.split()]: runs of blanks separate the fields, none is empty. *)
Fixpoint split (s : string) : list string :=
  match s with
  | EmptyString => []
  | String c s' =>
      if is_str_space c then split s'
      else match s' with
           | EmptyString => [String c EmptyString]
           | String c' _ =>
               if is_str_space c' then String c EmptyString :: split s'
               else match split s' with
                    | h :: t => String c h :: t
                    | [] => [String c EmptyString]
                    end
           end
  end.

(** [l[i]] on a list. *)
Definition index {A} (l : list A) (i : nat) : result A :=
  match l !! i with
  | Some x => Ok x
  | None => Raise IndexError
  end.

(** [int(v) for v in l]: the first failure aborts the comprehension. *)
Fixpoint map_int (l : list string) : result (list Z) :=
  match l with
  | [] => Ok []
  | v :: l' =>
      match int v with
      | Raise e => Raise e
      | Ok n => match map_int l' with
                | Raise e => Raise e
                | Ok ns => Ok (n :: ns)
                end
      end
  end.

End Py.

Import Py.

Definition nl : string := String "010" EmptyString.

(** ** Constants and enumerations *)

Definition LOGIN_URL : string := "https://www.factorio.com/login".
Definition LATEST_RELEASE_URL : string := "https://factorio.com/api/latest-releases".
Definition DOWNLOADED_VERSION_FILE : string := "version.txt".

Inductive FactorioBuild := ALPHA | EXPANSION | DEMO | HEADLESS.

Definition build_value (b : FactorioBuild) : string :=
match b with
| ALPHA => "alpha"
| EXPANSION => "expansion"
| DEMO => "demo"
| HEADLESS => "headless"
end.

Inductive FactorioDistro := WIN64 | WIN64_MANUAL | OSX | LINUX64.

Definition distro_value (d : FactorioDistro) : string :=
match d with
| WIN64 => "win64"
| WIN64_MANUAL => "win64-manual"
| OSX => "osx"
| LINUX64 => "linux64"
end.

Definition EXTENSION_FOR_DISTRO (d : FactorioDistro) : string :=
match d with
| WIN64 => "exe"
| WIN64_MANUAL => "zip"
| OSX => "dmg"
| LINUX64 => "tar.gz"
end.

(** ** FactorioVersion *)

Record FactorioVersion := mkVersion { major : Z; minor : Z; patch : Z }.

#[global] Instance FactorioVersion_eq_dec : EqDecision FactorioVersion.
Proof. solve_decision. Defined.

Module Version.

(** [FactorioVersion.from_str] *)
Definition from_str (s : string) : result FactorioVersion :=
  match map_int (split_on "." s) with
  | Raise e => Raise e
  | Ok version_list =>
      if negb (length version_list =? 3)%nat then Raise ValueError
      else match version_list with
           | [a; b; c] => Ok (mkVersion a b c)
           | _ => Raise IndexError
           end
  end.

(** [FactorioVersion.__str__] *)
Definition to_str (v : FactorioVersion) : string :=
  str_int (major v) ++ "." ++ str_int (minor v) ++ "." ++ str_int (patch v).

(** Tuple comparison [a < b]: the first differing component decides. *)
Definition ltb (a b : FactorioVersion) : bool :=
  if negb (major a =? major b) then major a <? major b
  else if negb (minor a =? minor b) then minor a <? minor b
  else patch a <? patch b.

(** Tuple equality [a == b]. *)
Definition eqb (a b : FactorioVersion) : bool :=
  (major a =? major b) && (minor a =? minor b) && (patch a =? patch b).

End Version.


(** ** The outside world

    A file is named by its directory and its name inside it: every file the
    program touches is [dir / name] for a directory given on the command
    line and one of a few fixed names without separator, no two of them
    alike, so that two files of the model are two files on disk however the
    directories are spelled.  The file system holds regular files only.  [log] records, oldest first, every HTTP
    request issued and every change made to the file system; [progress]
    records the calls made on the [rich] progress display. *)

Definition path : Type := string * string.

Inductive event :=
| EvGet (url : string)
| EvUnlink (p : path)
| EvOpen (p : path)
| EvWrite (p : path) (n : nat)
| EvRename (p q : path)
| EvWriteText (p : path) (text : string).

Inductive progress_event :=
| AddTask (id : nat) (description : string)
| SetTotal (id : nat) (total : Z)
| Advance (id : nat) (n : Z)
| SetDescription (id : nat) (description : string).

Record world := mkWorld {
  fs : gmap path string;
  log : list event;
  progress : list progress_event;
  console : list string;
}.

(** What an HTTP GET on the download endpoint comes back with.  [body] is
    the sequence of chunks that [iter_chunked] yields; [body_ok] tells
    whether the stream then ends normally or breaks. *)
Record response := mkResponse {
  status : Z;
  content_length : option string;
  body : list string;
  body_ok : bool;
}.

Inductive http_result :=
| NetError
| Response (r : response).

(** What the run reads from outside: the two environment variables (after
    [load_dotenv]), the decoded JSON answer of the latest-releases endpoint
    (an object of objects of strings), and the download endpoint as a
    function of the URL and the two query parameters. *)
Record environment := mkEnv {
  credentials : option (string * string);
  latest_releases : result (list (string * list (string * string)));
  server : string -> string -> string -> http_result;
}.

(** [aiohttp.ClientResponse.ok], which [raise_for_status] tests. *)
Definition response_ok (r : response) : bool := status r <? 400.

(** ** State and exception monad *)

Definition M (A : Type) : Type := world -> result A * world.

Definition ret {A} (a : A) : M A := fun w => (Ok a, w).

Definition raise {A} (e : exn) : M A := fun w => (Raise e, w).

Definition bind {A B} (m : M A) (k : A -> M B) : M B :=
  fun w => match m w with
           | (Ok a, w') => k a w'
           | (Raise e, w') => (Raise e, w')
           end.

Definition lift {A} (r : result A) : M A := fun w => (r, w).

#[global] Instance M_ret : MRet M := @ret.
#[global] Instance M_bind : MBind M := fun A B k m => bind m k.

Definition emit (e : event) : M unit :=
  fun w => (Ok tt, mkWorld (fs w) (log w ++ [e]) (progress w) (console w)).

Definition set_fs (f : gmap path string -> gmap path string) : M unit :=
  fun w => (Ok tt, mkWorld (f (fs w)) (log w) (progress w) (console w)).

Definition report (e : progress_event) : M unit :=
  fun w => (Ok tt, mkWorld (fs w) (log w) (progress w ++ [e]) (console w)).

Definition console_print (msg : string) : M unit :=
  fun w => (Ok tt, mkWorld (fs w) (log w) (progress w) (console w ++ [msg])).

(** [p.unlink(missing_ok=True)] *)
Definition unlink_missing_ok (p : path) : M unit :=
  emit (EvUnlink p) ;; set_fs (delete p).

(** [p.open("wb")]: the file is created, or emptied when it exists.  The
    directory of [p] is taken to exist (the program creates none). *)
Definition open_wb (p : path) : M unit :=
  emit (EvOpen p) ;; set_fs (<[p := EmptyString]>).

(** [f.write(chunk)] on the handle opened on [p]: the bytes are appended to
    the file that [p] names.  The handle and the name stand for the same
    file as long as no other task unlinks, opens or renames [p] in between,
    which is the case when the tasks of a group work on distinct
    platforms. *)
Definition file_write (p : path) (chunk : string) : M unit :=
  emit (EvWrite p (String.length chunk)) ;;
  set_fs (alter (fun content => content ++ chunk) p).

(** [p.rename(q)], both names on one file system *)
Definition rename (p q : path) : M unit :=
  fun w => match fs w !! p with
           | None => (Raise FileNotFoundError, w)
           | Some content =>
               (emit (EvRename p q) ;; set_fs (fun m => <[q := content]> (delete p m))) w
           end.

(** [p.write_text(text)] *)
Definition write_text (p : path) (text : string) : M unit :=
  emit (EvWriteText p text) ;; set_fs (<[p := text]>).

(** [progress.add_task(description)]: task ids count up from zero. *)
Definition is_add_task (e : progress_event) : bool :=
  match e with AddTask _ _ => true | _ => false end.

Fixpoint next_task_id (evs : list progress_event) : nat :=
  match evs with
  | [] => O
  | e :: evs' => if is_add_task e then S (next_task_id evs') else next_task_id evs'
  end.

Definition add_task (description : string) : M nat :=
  fun w => let id := next_task_id (progress w) in
           (report (AddTask id description) ;; ret id) w.

(** [d[k]] on a JSON object. *)
Fixpoint getitem {A} (k : string) (d : list (string * A)) : result A :=
  match d with
  | [] => Raise KeyError
  | (k', v) :: d' => if String.eqb k k' then Ok v else getitem k d'
  end.

(** ** Remote release resolver and local state reader *)

(** [get_latest_version] *)
Definition get_latest_version (env : environment) (build : FactorioBuild)
  : M FactorioVersion :=
  emit (EvGet LATEST_RELEASE_URL) ;;
  version_info ← lift (latest_releases env);
  stable ← lift (getitem "stable" version_info);
  version_str ← lift (getitem (build_value build) stable);
  lift (Version.from_str version_str).

(** [get_downloaded_version] *)
Definition get_downloaded_version (files : gmap path string) (version_file : path)
  : result (option FactorioVersion) :=
  match files !! version_file with
  | None => Ok None
  | Some text =>
      match index (split text) 0 with
      | Raise e => Raise e
      | Ok token =>
          match Version.from_str (strip is_str_space token) with
          | Raise e => Raise e
          | Ok v => Ok (Some v)
          end
      end
  end.

(** ** Download task *)

(** The requested version selector: the word [latest] or a version triple. *)
Inductive selector :=
| Latest
| Exact (v : FactorioVersion).

(** How a selector is rendered inside an f-string or by [str.format]. *)
Definition format_selector (r : selector) : string :=
  match r with
  | Latest => "latest"
  | Exact v => Version.to_str v
  end.

(** [DOWNLOAD_URL_TEMPLATE.format(version=..., build=..., distro=...)] *)
Definition DOWNLOAD_URL_TEMPLATE (version build distro : string) : string :=
  "https://www.factorio.com/get-download/" ++ version ++ "/" ++ build ++ "/" ++ distro.

(** The variables of [main] that the nested [download] closes over. *)
Record closure := mkClosure {
  requested_version : selector;
  build : FactorioBuild;
  save_dir : string;
  download_dir : string;
  username : string;
  token : string;
}.

Section Download.

Variable env : environment.
Variable cl : closure.

Definition download_url (distro : FactorioDistro) : string :=
  DOWNLOAD_URL_TEMPLATE (format_selector (requested_version cl))
    (build_value (build cl)) (distro_value distro).

Definition save_file (distro : FactorioDistro) : path :=
  (save_dir cl, distro_value distro ++ "." ++ EXTENSION_FOR_DISTRO distro).

Definition download_file (distro : FactorioDistro) : path :=
  (download_dir cl, snd (save_file distro) ++ ".tmp").

Definition task_label (distro : FactorioDistro) : string :=
  format_selector (requested_version cl) ++ "/" ++ build_value (build cl)
    ++ "/" ++ distro_value distro.

(** From the start of [download] to the suspension in [session.get]. *)
Definition download_begin (distro : FactorioDistro) : M nat :=
  unlink_missing_ok (download_file distro) ;;
  download_task ← add_task ("Downloading " ++ task_label distro) ;
  emit (EvGet (download_url distro)) ;;
  mret download_task.

(** From the arrival of the response to the first suspension in
    [iter_chunked]; returns the chunks to come. *)
Definition download_respond (distro : FactorioDistro) (download_task : nat)
  : M (list string * bool) :=
  match server env (download_url distro) (username cl) (token cl) with
  | NetError => raise ClientError
  | Response download_resp =>
      if negb (response_ok download_resp)
      then raise (ClientResponseError (status download_resp))
      else
        total_size ← lift (match content_length download_resp with
                           | Some h => int h
                           | None => Ok 0
                           end) ;
        report (SetTotal download_task total_size) ;;
        open_wb (download_file distro) ;;
        mret (body download_resp, body_ok download_resp)
  end.

(** One turn of the [async for] loop. *)
Definition download_chunk (distro : FactorioDistro) (download_task : nat)
    (chunk : string) : M unit :=
  file_write (download_file distro) chunk ;;
  report (Advance download_task (Z.of_nat (String.length chunk))).

Fixpoint download_stream (distro : FactorioDistro) (download_task : nat)
    (chunks : list string) : M unit :=
  match chunks with
  | [] => mret tt
  | chunk :: rest =>
      download_chunk distro download_task chunk ;;
      download_stream distro download_task rest
  end.

(** The end of the stream: a broken stream raises out of the loop, a
    complete one publishes the file. *)
Definition download_finish (distro : FactorioDistro) (download_task : nat)
    (complete : bool) : M unit :=
  if complete then
    unlink_missing_ok (save_file distro) ;;
    rename (download_file distro) (save_file distro) ;;
    report (SetDescription download_task
              ("Saved " ++ task_label distro ++ " to "
                 ++ fst (save_file distro) ++ "/" ++ snd (save_file distro)))
  else raise ClientError.

(** [download]: the whole coroutine, run without interruption. *)
Definition download (distro : FactorioDistro) : M unit :=
  download_task ← download_begin distro ;
  '(chunks, complete) ← download_respond distro download_task ;
  download_stream distro download_task chunks ;;
  download_finish distro download_task complete.

(** ** Task group

    The coroutines of a task group interleave at their suspension points.
    A task is the coroutine [download distro] stopped at one of them. *)
Inductive task_state :=
| Created
| AwaitResponse (download_task : nat)
| Streaming (download_task : nat) (chunks : list string) (complete : bool)
| Finished (download_task : nat)
| Failed (e : exn).

Record task := mkTask { task_distro : FactorioDistro; task_at : task_state }.

(** The code of a task from its suspension point to the next one. *)
Definition task_step (t : task) : M task_state :=
  let distro := task_distro t in
  match task_at t with
  | Created =>
      download_task ← download_begin distro ; mret (AwaitResponse download_task)
  | AwaitResponse download_task =>
      '(chunks, complete) ← download_respond distro download_task ;
      mret (Streaming download_task chunks complete)
  | Streaming download_task (chunk :: rest) complete =>
      download_chunk distro download_task chunk ;;
      mret (Streaming download_task rest complete)
  | Streaming download_task [] complete =>
      download_finish distro download_task complete ;; mret (Finished download_task)
  | Finished download_task => mret (Finished download_task)
  | Failed e => mret (Failed e)
  end.

(** The code of a task from its suspension point to its end. *)
Definition task_resume (t : task) : M unit :=
  let distro := task_distro t in
  match task_at t with
  | Created => download distro
  | AwaitResponse download_task =>
      '(chunks, complete) ← download_respond distro download_task ;
      download_stream distro download_task chunks ;;
      download_finish distro download_task complete
  | Streaming download_task chunks complete =>
      download_stream distro download_task chunks ;;
      download_finish distro download_task complete
  | Finished _ => mret tt
  | Failed e => raise e
  end.

(** The event loop resumes the tasks in the order of a schedule, a list of
    task indices.  An exception ends the task that raised it; the tasks
    that the loop had already made ready may still run before the group
    cancels them. *)
Fixpoint run_schedule (schedule : list nat) (tasks : list task) : M (list task) :=
  match schedule with
  | [] => mret tasks
  | i :: schedule' =>
      match tasks !! i with
      | None => run_schedule schedule' tasks
      | Some t =>
          fun w =>
            let '(r, w') := task_step t w in
            let at' := match r with Ok s => s | Raise e => Failed e end in
            run_schedule schedule' (<[i := mkTask (task_distro t) at']> tasks) w'
      end
  end.

Definition task_failure (t : task) : option exn :=
  match task_at t with
  | Failed e => Some e
  | _ => None
  end.

Fixpoint first_failure (tasks : list task) : option exn :=
  match tasks with
  | [] => None
  | t :: tasks' =>
      match task_failure t with
      | Some e => Some e
      | None => first_failure tasks'
      end
  end.

Fixpoint join_all (tasks : list task) : M unit :=
  match tasks with
  | [] => mret tt
  | t :: tasks' => task_resume t ;; join_all tasks'
  end.

(** [async with asyncio.TaskGroup() as tg: for distro in distros:
    tg.create_task(download(distro))]: the group returns when every task has
    finished, and raises an exception group as soon as tasks have failed.
    After the schedule the tasks still running are completed in turn. *)
Definition task_group (schedule : list nat) (distros : list FactorioDistro) : M unit :=
  fun w =>
    let '(r, w') :=
      (tasks ← run_schedule schedule (map (fun d => mkTask d Created) distros) ;
       match first_failure tasks with
       | Some e => raise e
       | None => join_all tasks
       end) w in
    match r with
    | Ok tt => (Ok tt, w')
    | Raise e => (Raise (ExceptionGroup e), w')
    end.

End Download.

(** ** Orchestrator *)

Record arguments := mkArgs {
  arg_build : FactorioBuild;
  arg_version : string;
  arg_distro : list FactorioDistro;
  arg_outdir : string;
  arg_tempdir : option string;
}.

Definition version_file_of (a : arguments) : path :=
  (arg_outdir a, DOWNLOADED_VERSION_FILE).

(** [main] from the environment lookup to the decision: returns the
    closure of the download phase and the version read from the marker,
    or leaves through [sys.exit] or an exception. *)
Definition main_decide (env : environment) (a : arguments)
  : M (closure * option FactorioVersion) :=
  '(username, token) ← match credentials env with
                        | Some c => mret c
                        | None => raise KeyError
                        end ;
  let build := arg_build a in
  let version_str := arg_version a in
  requested_version ←
    (if String.eqb version_str "latest" then mret Latest
     else v ← lift (Version.from_str version_str) ; mret (Exact v)) ;
  let save_dir := arg_outdir a in
  let download_dir := match arg_tempdir a with
                      | Some d => d
                      | None => save_dir
                      end in
  let version_file := (save_dir, DOWNLOADED_VERSION_FILE) in
  downloaded_version ← (fun w => (get_downloaded_version (fs w) version_file, w)) ;
  match downloaded_version with
  | Some downloaded =>
      match requested_version with
      | Latest =>
          latest_version ← get_latest_version env build ;
          if Version.eqb latest_version downloaded then
            console_print ("Latest version " ++ Version.to_str latest_version
                             ++ " is already downloaded, nothing to do.") ;;
            raise (SystemExit 0)
          else if Version.ltb latest_version downloaded then
            console_print "Latest version is older than the downloaded version, wtf?" ;;
            raise (SystemExit (-10))
          else mret tt
      | Exact requested =>
          if Version.eqb downloaded requested then
            console_print ("Requested version " ++ Version.to_str requested
                             ++ " is already downloaded, nothing to do.") ;;
            raise (SystemExit 0)
          else mret tt
      end
  | None => mret tt
  end ;;
  mret (mkClosure requested_version build save_dir download_dir username token,
        downloaded_version).

(** The text that [main] writes into the marker file at its last line. *)
Definition marker_text (downloaded_version : option FactorioVersion)
    (requested : selector) : string :=
  match downloaded_version with
  | Some downloaded => Version.to_str downloaded
  | None => format_selector requested
  end ++ nl.

(** [main] from the removal of the marker file to its end. *)
Definition main_download (env : environment) (a : arguments) (schedule : list nat)
    (cl : closure) (downloaded_version : option FactorioVersion) : M unit :=
  let version_file := (save_dir cl, DOWNLOADED_VERSION_FILE) in
  unlink_missing_ok version_file ;;
  task_group env cl schedule (arg_distro a) ;;
  write_text version_file (marker_text downloaded_version (requested_version cl)).

(** [main] *)
Definition main (env : environment) (a : arguments) (schedule : list nat) : M unit :=
  '(cl, downloaded_version) ← main_decide env a ;
  main_download env a schedule cl downloaded_version.

(** ** Vocabulary of the statements *)

Fixpoint all_chars (P : ascii -> bool) (s : string) : bool :=
  match s with
  | EmptyString => true
  | String c s' => P c && all_chars P s'
  end.

Definition is_digit (c : ascii) : bool :=
  match digit_of c with Some _ => true | None => false end.

(** A character that [str(n)] can produce. *)
Definition is_numeral (c : ascii) : bool := is_digit c || Ascii.eqb c "-".

(** Lexicographic order on versions: major, then minor, then patch. *)
Definition version_lt (a b : FactorioVersion) : Prop :=
  major a < major b
  \/ (major a = major b
      /\ (minor a < minor b \/ (minor a = minor b /\ patch a < patch b))).

(** The event [e] changes the file named [p]. *)
Definition touches (p : path) (e : event) : bool :=
  match e with
  | EvGet _ => false
  | EvUnlink q | EvOpen q | EvWrite q _ | EvWriteText q _ => bool_decide (p = q)
  | EvRename q q' => bool_decide (p = q) || bool_decide (p = q')
  end.

(** The events that the download task of [distro] can log. *)
Definition task_event (cl : closure) (distro : FactorioDistro) (e : event) : Prop :=
  e = EvUnlink (download_file cl distro)
  \/ e = EvGet (download_url cl distro)
  \/ e = EvOpen (download_file cl distro)
  \/ (exists n, e = EvWrite (download_file cl distro) n)
  \/ e = EvUnlink (save_file cl distro)
  \/ e = EvRename (download_file cl distro) (save_file cl distro).

Definition group_event (cl : closure) (distros : list FactorioDistro) (e : event) : Prop :=
  exists distro, In distro distros /\ task_event cl distro e.


(** The calls in [evs] that concern another task than [id]. *)
Definition about_task (id : nat) (e : progress_event) : Prop :=
  match e with
  | AddTask i _ | SetTotal i _ | Advance i _ | SetDescription i _ => i = id
  end.

(** [w'] is [w] after more events, all of them in [P]. *)
Definition logged (P : event -> Prop) (w w' : world) : Prop :=
  exists evs, log w' = (log w ++ evs)%list /\ Forall P evs.

(** The file named [p] is the same in [w] and [w']. *)
Definition same_at (p : path) (w w' : world) : Prop := fs w' !! p = fs w !! p.

(** Every run of [m] relates the world before to the world after. *)
Definition stable (R : world -> world -> Prop) {A} (m : M A) : Prop :=
  forall w, R w (m w).2.

(** The server answers the download request of [distro] with a success
    status, and the body stream ends as [complete] tells. *)
Definition served (env : environment) (cl : closure) (distro : FactorioDistro)
    (complete : bool) : Prop :=
  exists resp,
    server env (download_url cl distro) (username cl) (token cl) = Response resp
    /\ response_ok resp = true /\ body_ok resp = complete.

(** Since [w0] the temporary file of [distro] has been renamed into place. *)
Definition renamed (cl : closure) (distro : FactorioDistro) (w0 w : world) : Prop :=
  exists evs, log w = (log w0 ++ evs)%list
    /\ In (EvRename (download_file cl distro) (save_file cl distro)) evs.

(** What the state of a task tells about the run since [w0]. *)
Definition task_good (env : environment) (cl : closure) (w0 : world)
    (t : task) (w : world) : Prop :=
  match task_at t with
  | Streaming _ _ complete => served env cl (task_distro t) complete
  | Finished _ => served env cl (task_distro t) true /\ renamed cl (task_distro t) w0 w
  | _ => True
  end.

(** The bytes of a sequence of chunks, in order. *)
Fixpoint joined (chunks : list string) : string :=
  match chunks with
  | [] => EmptyString
  | chunk :: rest => chunk ++ joined rest
  end.

(** The [advance] updates that streaming [chunks] reports for task [id]. *)
Fixpoint advances (id : nat) (chunks : list string) : list progress_event :=
  match chunks with
  | [] => []
  | chunk :: rest => Advance id (Z.of_nat (String.length chunk)) :: advances id rest
  end.

(** The task that a call on the progress display is about. *)
Definition event_task (e : progress_event) : nat :=
  match e with
  | AddTask i _ | SetTotal i _ | Advance i _ | SetDescription i _ => i
  end.

(** The sum of the amounts of the [advance] updates of task [id]. *)
Fixpoint advance_for (id : nat) (evs : list progress_event) : Z :=
  match evs with
  | [] => 0
  | Advance i n :: evs' => (if Nat.eqb i id then n else 0) + advance_for id evs'
  | _ :: evs' => advance_for id evs'
  end.

(** The progress task that a download task has been given, if any yet. *)
Definition task_id (t : task) : option nat :=
  match task_at t with
  | AwaitResponse id | Streaming id _ _ | Finished id => Some id
  | Created | Failed _ => None
  end.

(** What the state of a task of a group tells about its own two files and
    its own progress updates, when no other task of the group works on the
    same platform: [files0] is the file system when the group started and
    [evs] the calls on the progress display since then. *)
Definition task_view (env : environment) (cl : closure) (files0 : gmap path string)
    (evs : list progress_event) (t : task) (w : world) : Prop :=
  let d := task_distro t in
  match task_at t with
  | Created | Failed _ => fs w !! save_file cl d = files0 !! save_file cl d
  | AwaitResponse id =>
      fs w !! save_file cl d = files0 !! save_file cl d /\ advance_for id evs = 0
  | Streaming id rest complete =>
      exists resp done,
        server env (download_url cl d) (username cl) (token cl) = Response resp
        /\ response_ok resp = true
        /\ body resp = (done ++ rest)%list /\ body_ok resp = complete
        /\ fs w !! download_file cl d = Some (joined done)
        /\ fs w !! save_file cl d = files0 !! save_file cl d
        /\ advance_for id evs = Z.of_nat (String.length (joined done))
  | Finished id =>
      exists resp,
        server env (download_url cl d) (username cl) (token cl) = Response resp
        /\ response_ok resp = true
        /\ fs w !! save_file cl d = Some (joined (body resp))
        /\ fs w !! download_file cl d = None
        /\ advance_for id evs = Z.of_nat (String.length (joined (body resp)))
  end.

(** The invariant of a task group on pairwise distinct platforms. *)
Definition group_inv (env : environment) (cl : closure) (w0 : world)
    (tasks : list task) (w : world) (evs : list progress_event) : Prop :=
  progress w = (progress w0 ++ evs)%list
  /\ Forall (fun e => (event_task e < next_task_id (progress w))%nat) evs
  /\ (forall i t id, tasks !! i = Some t -> task_id t = Some id ->
        (id < next_task_id (progress w))%nat)
  /\ (forall i j t t' id, i <> j -> tasks !! i = Some t -> tasks !! j = Some t' ->
        task_id t = Some id -> task_id t' <> Some id)
  /\ (forall i t, tasks !! i = Some t -> task_view env cl (fs w0) evs t w).

(** Since [w0] the archive of [distro] has been requested from the server. *)
Definition requested (cl : closure) (distro : FactorioDistro) (w0 w : world) : Prop :=
  exists evs, log w = (log w0 ++ evs)%list /\ In (EvGet (download_url cl distro)) evs.

(** A task that has left its first state has sent its request. *)
Definition task_asked (cl : closure) (w0 : world) (t : task) (w : world) : Prop :=
  match task_at t with
  | Created => True
  | _ => requested cl (task_distro t) w0 w
  end.

(** The state a task is left in by running it to its end. *)
Definition ending (id : nat) (r : result unit) : task_state :=
  match r with Ok _ => Finished id | Raise e => Failed e end.

(** ** Sample runs *)

(** A server that answers every download request with three bytes in two
    chunks. *)
Definition sample_server (url username token : string) : http_result :=
  Response (mkResponse 200 (Some "3") ["ab"; "c"] true).

(** A server that refuses the macOS archive and serves the others. *)
Definition refusing_server (url username token : string) : http_result :=
  if String.eqb url "https://www.factorio.com/get-download/latest/expansion/osx"
  then Response (mkResponse 403 None [] true)
  else sample_server url username token.

Definition sample_env (latest : string) (srv : string -> string -> string -> http_result)
  : environment :=
  mkEnv (Some ("user", "token"))
        (Ok [("experimental", [("expansion", "9.9.9")]);
             ("stable", [("alpha", latest); ("expansion", latest)])])
        srv.

Definition sample_args (version : string) : arguments :=
  mkArgs EXPANSION version [LINUX64; OSX] "out" None.

(** The arguments parsed from [--version v --outdir out]: the build and
    the platforms are the defaults of the parser. *)
Definition default_args (version : string) : arguments :=
  mkArgs EXPANSION version [WIN64; WIN64_MANUAL; OSX; LINUX64] "out" None.

Definition sample_marker : path := ("out", DOWNLOADED_VERSION_FILE).

Definition sample_world (marker : option string) : world :=
  mkWorld (match marker with
           | Some text => {[ sample_marker := text ]}
           | None => ∅
           end) [] [] [].

Definition sample_closure : closure :=
  mkClosure Latest EXPANSION "out" "tmp" "user" "token".

(** * Properties *)

(** ** The built-ins on small inputs *)

Example from_str_ex1 : Version.from_str "2.0.10" = Ok (mkVersion 2 0 10).
Proof. reflexivity. Qed.
Example from_str_ex2 : Version.from_str " 1. 2 .+3" = Ok (mkVersion 1 2 3).
Proof. reflexivity. Qed.
Example from_str_ex3 : Version.from_str "1.2" = Raise ValueError.
Proof. reflexivity. Qed.
Example from_str_ex4 : Version.from_str "latest" = Raise ValueError.
Proof. reflexivity. Qed.
Example to_str_ex1 : Version.to_str (mkVersion 2 0 10) = "2.0.10".
Proof. reflexivity. Qed.
Example to_str_ex2 : Version.to_str (mkVersion 12345 0 (-7)) = "12345.0.-7".
Proof. reflexivity. Qed.
Example split_ex1 : split ("  1.2.3 x" ++ nl) = ["1.2.3"; "x"].
Proof. reflexivity. Qed.
Example int_ex1 : map int ["007"; "1_000"; "-0"; "+5"; String "011" "42 "]
                  = [Ok 7; Ok 1000; Ok 0; Ok 5; Ok 42].
Proof. reflexivity. Qed.
Example int_ex2 : map int [EmptyString; "_1"; "1_"; "1__0"; "- 1"; "1 2"; "0x10"; String "028" "1"]
                  = repeat (Raise ValueError) 8.
Proof. reflexivity. Qed.
Example split_on_ex1 : split_on "." "1..2" = ["1"; EmptyString; "2"].
Proof. reflexivity. Qed.
Example split_ex2 : split (String "028" "a" ++ String "011" "b c" ++ nl) = ["a"; "b"; "c"].
Proof. reflexivity. Qed.
Example ltb_ex1 :
  map (fun '(a, b) => Version.ltb a b)
      [(mkVersion 1 0 0, mkVersion 1 0 1); (mkVersion 1 0 1, mkVersion 1 1 0);
       (mkVersion 1 1 0, mkVersion 2 0 0); (mkVersion 2 0 0, mkVersion 1 9 9);
       (mkVersion 1 1 0, mkVersion 1 1 0)]
  = [true; true; true; false; false].
Proof. reflexivity. Qed.

(** ** Characters and strings *)

Lemma digit_char_spec d :
  0 <= d < 10 ->
  digit_of (digit_char d) = Some d /\ is_numeral (digit_char d) = true.
Proof.
  intros Hd.
  assert (d = 0 \/ d = 1 \/ d = 2 \/ d = 3 \/ d = 4 \/ d = 5 \/ d = 6
          \/ d = 7 \/ d = 8 \/ d = 9) as Hcases by lia.
  repeat (destruct Hcases as [-> | Hcases]); try subst d; split; reflexivity.
Qed.

Lemma is_numeral_facts c :
  is_numeral c = true ->
  is_c_space c = false /\ is_str_space c = false /\ Ascii.eqb c "." = false
  /\ Ascii.eqb c "_" = false /\ Ascii.eqb c "+" = false.
Proof.
  destruct c as [[] [] [] [] [] [] [] []]; cbv; intros H;
    first [discriminate H | repeat split].
Qed.

Lemma is_digit_not_minus c : is_digit c = true -> Ascii.eqb c "-" = false.
Proof.
  destruct c as [[] [] [] [] [] [] [] []]; cbv; intros H;
    first [discriminate H | reflexivity].
Qed.

Lemma all_chars_app P s t :
  all_chars P (s ++ t) = all_chars P s && all_chars P t.
Proof.
  induction s as [|c s IH]; simpl; [reflexivity|].
  rewrite IH. apply andb_assoc.
Qed.

Lemma all_chars_impl (P Q : ascii -> bool) s :
  (forall c, P c = true -> Q c = true) ->
  all_chars P s = true -> all_chars Q s = true.
Proof.
  intros HPQ. induction s as [|c s IH]; simpl; [reflexivity|].
  rewrite !andb_true_iff. intros [Hc Hs]. auto.
Qed.

Lemma lstrip_id sp s :
  all_chars (fun c => negb (sp c)) s = true -> lstrip sp s = s.
Proof.
  destruct s as [|c s]; simpl; [reflexivity|].
  rewrite andb_true_iff, negb_true_iff. intros [-> _]. reflexivity.
Qed.

Lemma rstrip_id sp s :
  all_chars (fun c => negb (sp c)) s = true -> rstrip sp s = s.
Proof.
  induction s as [|c s IH]; simpl; [reflexivity|].
  rewrite andb_true_iff, negb_true_iff. intros [Hc Hs].
  rewrite (IH Hs), Hc. destruct s; reflexivity.
Qed.

Lemma strip_id sp s :
  all_chars (fun c => negb (sp c)) s = true -> strip sp s = s.
Proof.
  intros H. unfold strip. rewrite (lstrip_id _ _ H). apply rstrip_id, H.
Qed.

(** ** Integers: printing and reading back *)

Lemma digits_aux_numeral fuel : forall n acc,
  all_chars is_digit acc = true ->
  all_chars is_digit (digits_aux fuel n acc) = true.
Proof.
  assert (Hd : forall n, is_digit (digit_char (n mod 10)) = true).
  { intros n. unfold is_digit.
    destruct (digit_char_spec (n mod 10)) as [-> _]; [|reflexivity].
    apply Z.mod_pos_bound; lia. }
  induction fuel as [|f IH]; intros n acc Hacc; simpl.
  - rewrite Hd, Hacc. reflexivity.
  - destruct (n <? 10).
    + simpl. rewrite Hd, Hacc. reflexivity.
    + apply IH. simpl. rewrite Hd, Hacc. reflexivity.
Qed.

Lemma digits_aux_nonempty fuel : forall n acc,
  exists c s, digits_aux fuel n acc = String c s.
Proof.
  induction fuel as [|f IH]; intros n acc; simpl; [eauto|].
  destruct (n <? 10); [eauto | apply IH].
Qed.

Lemma parse_digits_step d acc s b :
  0 <= d < 10 ->
  parse_digits (String (digit_char d) s) acc b = parse_digits s (10 * acc + d) false.
Proof.
  intros Hd. destruct (digit_char_spec d Hd) as [Hdig Hnum].
  destruct (is_numeral_facts _ Hnum) as (_ & _ & _ & Hus & _).
  simpl. rewrite Hus, Hdig. reflexivity.
Qed.

Lemma parse_digits_aux fuel : forall n acc b,
  0 <= n < 10 ^ Z.of_nat (S fuel) ->
  parse_digits (digits_aux fuel n acc) 0 b = parse_digits acc n false.
Proof.
  induction fuel as [|f IH]; intros n acc b Hn.
  - simpl digits_aux. change (10 ^ Z.of_nat 1) with 10 in Hn.
    rewrite Z.mod_small by lia. rewrite parse_digits_step by lia.
    f_equal.
  - simpl digits_aux. destruct (Z.ltb_spec n 10) as [Hlt|Hge].
    + rewrite Z.mod_small by lia. rewrite parse_digits_step by lia. f_equal.
    + rewrite IH.
      * rewrite parse_digits_step by (apply Z.mod_pos_bound; lia).
        f_equal. pose proof (Z.div_mod n 10). lia.
      * rewrite Nat2Z.inj_succ, Z.pow_succ_r in Hn by lia.
        split; [apply Z.div_pos; lia|].
        apply Z.div_lt_upper_bound; lia.
Qed.

Lemma digits_fuel_enough n :
  0 <= n -> n < 10 ^ Z.of_nat (S (Z.to_nat (Z.log2 n))).
Proof.
  intros Hn. rewrite Nat2Z.inj_succ, Z2Nat.id by apply Z.log2_nonneg.
  destruct (Z.eq_dec n 0) as [->|Hnz]; [reflexivity|].
  pose proof (Z.log2_spec n ltac:(lia)) as [_ Hup].
  eapply Z.lt_le_trans; [exact Hup|].
  apply Z.pow_le_mono_l. pose proof (Z.log2_nonneg n). lia.
Qed.

Lemma parse_digits_digits n b :
  0 <= n -> parse_digits (digits n) 0 b = Some n.
Proof.
  intros Hn. unfold digits. rewrite parse_digits_aux; [reflexivity|].
  split; [exact Hn | apply digits_fuel_enough, Hn].
Qed.

Lemma digits_all_digit n : all_chars is_digit (digits n) = true.
Proof. apply digits_aux_numeral. reflexivity. Qed.

Lemma str_int_numeral n : all_chars is_numeral (str_int n) = true.
Proof.
  assert (H : forall m, all_chars is_numeral (digits m) = true).
  { intros m. eapply all_chars_impl; [|apply digits_all_digit].
    intros c Hc. unfold is_numeral. rewrite Hc. reflexivity. }
  unfold str_int. destruct (n <? 0); [|apply H].
  simpl. rewrite H. reflexivity.
Qed.

(** [int(str(n)) == n] for every integer. *)
Lemma int_str_int n : int (str_int n) = Ok n.
Proof.
  unfold int. rewrite strip_id.
  2:{ eapply all_chars_impl; [|apply str_int_numeral].
      intros c Hc. apply is_numeral_facts in Hc as (-> & _). reflexivity. }
  unfold str_int. destruct (Z.ltb_spec n 0) as [Hneg|Hpos].
  - change (Ascii.eqb "-" "-") with true. cbv iota.
    rewrite parse_digits_digits by lia. simpl. f_equal. lia.
  - pose proof (digits_all_digit n) as Hall.
    pose proof (parse_digits_digits n true Hpos) as Hparse.
    destruct (digits n) as [|c u]; [discriminate Hparse|].
    simpl in Hall. apply andb_true_iff in Hall as [Hc _].
    rewrite (is_digit_not_minus _ Hc).
    assert (is_numeral c = true) as Hnum by (unfold is_numeral; rewrite Hc; reflexivity).
    apply is_numeral_facts in Hnum as (_ & _ & _ & _ & ->).
    rewrite Hparse. reflexivity.
Qed.

(** ** Splitting on dots *)

Lemma split_on_nonempty sep s : split_on sep s <> [].
Proof.
  destruct s as [|c s]; simpl; [discriminate|].
  destruct (Ascii.eqb c sep); [discriminate|].
  destruct (split_on sep s); discriminate.
Qed.

Lemma split_on_no_sep sep s :
  all_chars (fun c => negb (Ascii.eqb c sep)) s = true -> split_on sep s = [s].
Proof.
  induction s as [|c s IH]; simpl; [reflexivity|].
  rewrite andb_true_iff, negb_true_iff. intros [-> Hs].
  rewrite (IH Hs). reflexivity.
Qed.

Lemma split_on_app sep s t :
  all_chars (fun c => negb (Ascii.eqb c sep)) s = true ->
  split_on sep (s ++ String sep t) = s :: split_on sep t.
Proof.
  induction s as [|c s IH]; simpl.
  - intros _. rewrite Ascii.eqb_refl. reflexivity.
  - rewrite andb_true_iff, negb_true_iff. intros [-> Hs].
    rewrite (IH Hs). reflexivity.
Qed.

Lemma str_int_no_dot n :
  all_chars (fun c => negb (Ascii.eqb c ".")) (str_int n) = true.
Proof.
  eapply all_chars_impl; [|apply str_int_numeral].
  intros c Hc. apply is_numeral_facts in Hc as (_ & _ & -> & _). reflexivity.
Qed.

Lemma split_on_to_str v :
  split_on "." (Version.to_str v)
  = [str_int (major v); str_int (minor v); str_int (patch v)].
Proof.
  unfold Version.to_str.
  change ("." ++ ?s)%string with (String "." s).
  rewrite split_on_app by apply str_int_no_dot.
  change ("." ++ ?s)%string with (String "." s).
  rewrite split_on_app by apply str_int_no_dot.
  rewrite split_on_no_sep by apply str_int_no_dot.
  reflexivity.
Qed.

(** ** FactorioVersion *)

Lemma int_raises s e : int s = Raise e -> e = ValueError.
Proof.
  unfold int. destruct (strip is_c_space s) as [|c u].
  - intros [= <-]. reflexivity.
  - destruct (Ascii.eqb c "-"); [|destruct (Ascii.eqb c "+")];
      match goal with |- context [match ?r with Some _ => _ | None => _ end] =>
        destruct r end; intros [= <-] || discriminate; reflexivity.
Qed.

Lemma map_int_raises l e : map_int l = Raise e -> e = ValueError.
Proof.
  induction l as [|v l IH]; simpl; [discriminate|].
  destruct (int v) eqn:Hv.
  - destruct (map_int l); [discriminate|]. intros [= <-]. apply IH. reflexivity.
  - intros [= <-]. eapply int_raises, Hv.
Qed.

Lemma map_int_three l x y z :
  map_int l = Ok [x; y; z] <->
  exists a b c, l = [a; b; c] /\ int a = Ok x /\ int b = Ok y /\ int c = Ok z.
Proof.
  split.
  - destruct l as [|a [|b [|c [|d l]]]]; simpl;
      repeat match goal with
             | |- context [match int ?s with Ok _ => _ | Raise _ => _ end] =>
                 destruct (int s) eqn:?
             | |- context [match map_int ?s with Ok _ => _ | Raise _ => _ end] =>
                 destruct (map_int s) eqn:?
             end; try discriminate.
    intros [= -> -> ->]. eauto 10.
  - intros (a & b & c & -> & Ha & Hb & Hc). simpl. rewrite Ha, Hb, Hc. reflexivity.
Qed.

Lemma from_str_ok s v :
  Version.from_str s = Ok v <->
  exists a b c, split_on "." s = [a; b; c]
    /\ int a = Ok (major v) /\ int b = Ok (minor v) /\ int c = Ok (patch v).
Proof.
  rewrite <- map_int_three. unfold Version.from_str.
  destruct (map_int (split_on "." s)) as [l|e]; [|split; discriminate].
  destruct l as [|x [|y [|z [|t l]]]]; simpl; try (split; discriminate).
  destruct v as [a b c]; simpl. split; intros [= -> -> ->]; reflexivity.
Qed.

Lemma from_str_raises s e : Version.from_str s = Raise e -> e = ValueError.
Proof.
  unfold Version.from_str.
  destruct (map_int (split_on "." s)) as [l|e'] eqn:Hl.
  - destruct l as [|x [|y [|z [|t l]]]]; simpl; intros [= <-] || discriminate;
      reflexivity.
  - intros [= <-]. eapply map_int_raises, Hl.
Qed.

Lemma from_str_to_str v : Version.from_str (Version.to_str v) = Ok v.
Proof.
  apply from_str_ok. do 3 eexists. split; [apply split_on_to_str|].
  rewrite !int_str_int. auto.
Qed.

Lemma version_eqb_eq a b : Version.eqb a b = true <-> a = b.
Proof.
  destruct a as [a1 a2 a3], b as [b1 b2 b3]. unfold Version.eqb; simpl.
  rewrite !andb_true_iff, !Z.eqb_eq. split.
  - intros [[-> ->] ->]. reflexivity.
  - intros [= -> -> ->]. auto.
Qed.

(** [C9] For every triple (a, b, c) of non-negative integers, parsing the
    formatted string of the version {a, b, c} yields {a, b, c} back. *)
Theorem parse_format_roundtrip (a b c : Z) :
  0 <= a -> 0 <= b -> 0 <= c ->
  Version.from_str (Version.to_str (mkVersion a b c)) = Ok (mkVersion a b c).
Proof. intros _ _ _. apply from_str_to_str. Qed.

Lemma parse_format_roundtrip_witness :
  Version.from_str (Version.to_str (mkVersion 2 0 10)) = Ok (mkVersion 2 0 10).
Proof. apply (parse_format_roundtrip 2 0 10); lia. Defined.

(** [C6], as the code has it: parsing succeeds exactly when the text splits
    on dots into three fields that [int] accepts, the components are the
    integers read from the fields (of either sign), and every failure is a
    [ValueError]. *)
Theorem from_str_three_fields (s : string) :
  (forall v, Version.from_str s = Ok v <->
     exists a b c, split_on "." s = [a; b; c]
       /\ int a = Ok (major v) /\ int b = Ok (minor v) /\ int c = Ok (patch v))
  /\ ((exists v, Version.from_str s = Ok v) \/ Version.from_str s = Raise ValueError).
Proof.
  split; [intros v; apply from_str_ok|].
  destruct (Version.from_str s) as [v|e] eqn:H; [eauto|].
  right. f_equal. eapply from_str_raises, H.
Qed.

Lemma from_str_three_fields_witness :
  Version.from_str " 1.-2.+3 " = Ok (mkVersion 1 (-2) 3)
  /\ Version.from_str "1.2.3.4" = Raise ValueError.
Proof.
  split.
  - apply (proj1 (from_str_three_fields " 1.-2.+3 ") (mkVersion 1 (-2) 3)).
    exists " 1", "-2", "+3 ". repeat split; reflexivity.
  - destruct (proj2 (from_str_three_fields "1.2.3.4")) as [[v Hv] | Hraise];
      [discriminate Hv | exact Hraise].
Defined.

(** [C6], as stated, fails: a field with a minus sign is accepted and gives
    a negative component. *)
Lemma from_str_negative_component :
  ~ (forall v, Version.from_str "-1.2.3" = Ok v ->
       0 <= major v /\ 0 <= minor v /\ 0 <= patch v).
Proof.
  intros H. destruct (H (mkVersion (-1) 2 3) eq_refl) as [Hneg _].
  simpl in Hneg. lia.
Qed.

Lemma version_ltb_lt a b : Version.ltb a b = true <-> version_lt a b.
Proof.
  unfold Version.ltb, version_lt.
  destruct (Z.eqb_spec (major a) (major b)) as [Hm|Hm]; simpl.
  - destruct (Z.eqb_spec (minor a) (minor b)) as [Hn|Hn]; simpl;
      rewrite Z.ltb_lt; lia.
  - rewrite Z.ltb_lt. lia.
Qed.

(** ** Local state reader *)

Lemma split_tokens_no_space s :
  Forall (fun t => all_chars (fun c => negb (is_str_space c)) t = true) (split s).
Proof.
  induction s as [|c s IH]; simpl; [constructor|].
  destruct (is_str_space c) eqn:Hc; [exact IH|].
  destruct s as [|c' s']; [repeat constructor; simpl; rewrite Hc; reflexivity|].
  destruct (is_str_space c') eqn:Hc'.
  - constructor; [simpl; rewrite Hc; reflexivity | exact IH].
  - destruct (split (String c' s')) as [|h t].
    + repeat constructor. simpl. rewrite Hc. reflexivity.
    + inversion IH as [|? ? Hh Ht]; subst. constructor; [|exact Ht].
      simpl. rewrite Hc, Hh. reflexivity.
Qed.

(** [C8], as the code has it: the reader returns [None] exactly when the
    marker file does not exist; on an existing file with at least one token
    it parses the first token, and a malformed token is a [ValueError]; on
    an existing file without any token (empty or blank) it fails with an
    [IndexError]. *)
Theorem read_marker_cases (files : gmap path string) (p : path) :
  (get_downloaded_version files p = Ok None <-> files !! p = None)
  /\ (forall text, files !! p = Some text ->
        match split text with
        | token :: _ =>
            get_downloaded_version files p
            = match Version.from_str token with
              | Ok v => Ok (Some v)
              | Raise _ => Raise ValueError
              end
        | [] => get_downloaded_version files p = Raise IndexError
        end).
Proof.
  unfold get_downloaded_version. split.
  - destruct (files !! p) as [text|]; [|tauto].
    split; [|discriminate].
    destruct (index (split text) 0); [|discriminate].
    destruct (Version.from_str _); discriminate.
  - intros text ->. pose proof (split_tokens_no_space text) as Htok.
    destruct (split text) as [|token rest]; [reflexivity|].
    inversion Htok as [|? ? Hclean _]; subst.
    unfold index; simpl. rewrite (strip_id _ _ Hclean).
    destruct (Version.from_str token) as [v|e] eqn:Hv; [reflexivity|].
    f_equal. eapply from_str_raises, Hv.
Qed.

Lemma read_marker_cases_witness :
  let files : gmap path string :=
    {[ sample_marker := ("  2.0.10 stable" ++ nl)%string ]} in
  get_downloaded_version files sample_marker = Ok (Some (mkVersion 2 0 10))
  /\ get_downloaded_version files ("out", "missing.txt") = Ok None.
Proof.
  intros files.
  destruct (read_marker_cases files sample_marker) as [_ Hpresent].
  destruct (read_marker_cases files ("out", "missing.txt")) as [Habsent _].
  split.
  - exact (Hpresent _ (lookup_singleton_eq _ _)).
  - apply Habsent. apply lookup_singleton_ne. discriminate.
Defined.

(** [C8], as stated, fails: an existing marker file that is empty makes the
    reader fail with an [IndexError], which no version parse raised. *)
Lemma read_marker_empty_file :
  ~ (forall (files : gmap path string) p text, files !! p = Some text ->
       (exists v, get_downloaded_version files p = Ok (Some v))
       \/ get_downloaded_version files p = Raise ValueError).
Proof.
  intros H.
  destruct (H {[ ("out", DOWNLOADED_VERSION_FILE) := EmptyString ]}
              ("out", DOWNLOADED_VERSION_FILE) EmptyString
              (lookup_singleton_eq _ _)) as [[v Hv]|Hv];
    unfold get_downloaded_version in Hv;
    rewrite lookup_singleton_eq in Hv; discriminate Hv.
Qed.

(** ** Relations kept by every run *)

#[global] Instance logged_preorder P : PreOrder (logged P).
Proof.
  split.
  - intros w. exists []. split; [symmetry; apply app_nil_r | constructor].
  - intros w1 w2 w3 (e1 & H1 & F1) (e2 & H2 & F2). exists (e1 ++ e2)%list.
    split; [rewrite H2, H1; symmetry; apply app_assoc | apply Forall_app; auto].
Qed.

#[global] Instance same_at_preorder p : PreOrder (same_at p).
Proof.
  split; unfold same_at.
  - intros w. reflexivity.
  - intros w1 w2 w3 H1 H2. congruence.
Qed.

Lemma logged_weaken (P Q : event -> Prop) w w' :
  (forall e, P e -> Q e) -> logged P w w' -> logged Q w w'.
Proof.
  intros HPQ (evs & Hlog & Hall). exists evs. split; [exact Hlog|].
  eapply Forall_impl; [exact Hall | exact HPQ].
Qed.

Section Stable.

Context (R : world -> world -> Prop) `{!PreOrder R}.

Lemma stable_ret {A} (a : A) : stable R (mret a : M A).
Proof. intros w. simpl. reflexivity. Qed.

Lemma stable_raise {A} e : stable R (raise e : M A).
Proof. intros w. simpl. reflexivity. Qed.

Lemma stable_lift {A} (r : result A) : stable R (lift r).
Proof. intros w. simpl. reflexivity. Qed.

Lemma stable_bind {A B} (m : M A) (k : A -> M B) :
  stable R m -> (forall a, stable R (k a)) -> stable R (m ≫= k).
Proof.
  intros Hm Hk w. unfold mbind, M_bind, bind.
  specialize (Hm w). destruct (m w) as [[a|e] w']; simpl in *; [|exact Hm].
  etransitivity; [exact Hm | apply Hk].
Qed.

End Stable.

Lemma logged_emit P e : P e -> stable (logged P) (emit e).
Proof. intros He w. exists [e]. split; [reflexivity | repeat constructor; exact He]. Qed.

Lemma logged_set_fs P f : stable (logged P) (set_fs f).
Proof. intros w. exists []. split; [symmetry; apply app_nil_r | constructor]. Qed.

Lemma logged_report P e : stable (logged P) (report e).
Proof. intros w. exists []. split; [symmetry; apply app_nil_r | constructor]. Qed.

Lemma logged_console_print P msg : stable (logged P) (console_print msg).
Proof. intros w. exists []. split; [symmetry; apply app_nil_r | constructor]. Qed.

Lemma logged_add_task P description : stable (logged P) (add_task description).
Proof. intros w. exists []. split; [symmetry; apply app_nil_r | constructor]. Qed.

Lemma logged_rename P p q : P (EvRename p q) -> stable (logged P) (rename p q).
Proof.
  intros He w. unfold rename. destruct (fs w !! p); [|reflexivity].
  exists [EvRename p q]. split; [reflexivity | repeat constructor; exact He].
Qed.

Lemma same_at_emit p e : stable (same_at p) (emit e).
Proof. intros w. reflexivity. Qed.

Lemma same_at_report p e : stable (same_at p) (report e).
Proof. intros w. reflexivity. Qed.

Lemma same_at_console_print p msg : stable (same_at p) (console_print msg).
Proof. intros w. reflexivity. Qed.

Lemma same_at_add_task p description : stable (same_at p) (add_task description).
Proof. intros w. reflexivity. Qed.

Lemma same_at_set_fs p f :
  (forall m : gmap path string, f m !! p = m !! p) -> stable (same_at p) (set_fs f).
Proof. intros Hf w. apply Hf. Qed.

Lemma same_at_unlink p q : p <> q -> stable (same_at p) (unlink_missing_ok q).
Proof.
  intros Hne. apply stable_bind; [apply _ | apply same_at_emit |].
  intros _. apply same_at_set_fs. intros m. apply lookup_delete_ne. congruence.
Qed.

Lemma same_at_open_wb p q : p <> q -> stable (same_at p) (open_wb q).
Proof.
  intros Hne. apply stable_bind; [apply _ | apply same_at_emit |].
  intros _. apply same_at_set_fs. intros m. apply lookup_insert_ne. congruence.
Qed.

Lemma same_at_file_write p q chunk : p <> q -> stable (same_at p) (file_write q chunk).
Proof.
  intros Hne. apply stable_bind; [apply _ | apply same_at_emit |].
  intros _. apply same_at_set_fs. intros m. apply lookup_alter_ne. congruence.
Qed.

Lemma same_at_rename p q q' : p <> q -> p <> q' -> stable (same_at p) (rename q q').
Proof.
  intros Hq Hq' w. unfold rename. destruct (fs w !! q); [|reflexivity].
  unfold same_at. simpl. rewrite lookup_insert_ne, lookup_delete_ne by congruence.
  reflexivity.
Qed.

(** ** Download task: what it touches *)

Lemma task_paths_distinct cl d : save_file cl d <> download_file cl d.
Proof. destruct d; intros [= _ H]; discriminate H. Qed.

Lemma marker_not_task_path cl d :
  (save_dir cl, DOWNLOADED_VERSION_FILE) <> save_file cl d
  /\ (save_dir cl, DOWNLOADED_VERSION_FILE) <> download_file cl d.
Proof. destruct d; split; intros [= H]; try discriminate H. Qed.

Lemma task_event_touches cl d e :
  task_event cl d e -> touches (save_dir cl, DOWNLOADED_VERSION_FILE) e = false.
Proof.
  destruct (marker_not_task_path cl d) as [Hs Ht].
  intros [-> | [-> | [-> | [[n ->] | [-> | ->]]]]]; simpl;
    rewrite ?bool_decide_eq_false_2 by assumption; reflexivity.
Qed.

Ltac stable_step :=
  first
    [ apply stable_ret; apply _ | apply stable_raise; apply _
    | apply stable_lift; apply _
    | apply logged_report | apply logged_set_fs | apply logged_add_task
    | apply logged_console_print
    | apply same_at_emit | apply same_at_report | apply same_at_add_task
    | apply same_at_console_print
    | apply same_at_unlink; assumption
    | apply same_at_open_wb; assumption
    | apply same_at_file_write; assumption
    | apply same_at_rename; assumption
    | apply stable_bind; [apply _ | | intros ?] ].

Section DownloadFrame.

Variable env : environment.
Variable cl : closure.
Variable d : FactorioDistro.

Abbreviation P := (task_event cl d).

Lemma logged_download_begin : stable (logged P) (download_begin cl d).
Proof.
  unfold download_begin, unlink_missing_ok. repeat stable_step;
    apply logged_emit; unfold task_event; auto.
Qed.

Lemma logged_download_respond id : stable (logged P) (download_respond env cl d id).
Proof.
  unfold download_respond, open_wb.
  destruct (server _ _ _ _) as [|resp]; [stable_step|].
  destruct (negb (response_ok resp)); repeat stable_step.
  apply logged_emit; unfold task_event; auto.
Qed.

Lemma logged_download_chunk id chunk : stable (logged P) (download_chunk cl d id chunk).
Proof.
  unfold download_chunk, file_write. repeat stable_step.
  apply logged_emit; unfold task_event; eauto 10.
Qed.

Lemma logged_download_stream id chunks : stable (logged P) (download_stream cl d id chunks).
Proof.
  induction chunks as [|c rest IH]; simpl; [stable_step|].
  apply stable_bind; [apply _ | apply logged_download_chunk | intros _; exact IH].
Qed.

Lemma logged_download_finish id complete :
  stable (logged P) (download_finish cl d id complete).
Proof.
  unfold download_finish, unlink_missing_ok. destruct complete; repeat stable_step.
  - apply logged_emit; unfold task_event; auto 10.
  - apply logged_rename; unfold task_event; auto 10.
Qed.

Lemma logged_download : stable (logged P) (download env cl d).
Proof.
  unfold download.
  apply stable_bind; [apply _ | apply logged_download_begin | intros id].
  apply stable_bind; [apply _ | apply logged_download_respond | intros [chunks complete]].
  apply stable_bind; [apply _ | apply logged_download_stream | intros _].
  apply logged_download_finish.
Qed.

Variable p : path.
Hypothesis p_not_save : p <> save_file cl d.
Hypothesis p_not_temp : p <> download_file cl d.

Lemma same_at_download_begin : stable (same_at p) (download_begin cl d).
Proof. unfold download_begin. repeat stable_step. Qed.

Lemma same_at_download_respond id : stable (same_at p) (download_respond env cl d id).
Proof.
  unfold download_respond.
  destruct (server _ _ _ _) as [|resp]; [stable_step|].
  destruct (negb (response_ok resp)); repeat stable_step.
Qed.

Lemma same_at_download_chunk id chunk : stable (same_at p) (download_chunk cl d id chunk).
Proof. unfold download_chunk. repeat stable_step. Qed.

Lemma same_at_download_stream id chunks :
  stable (same_at p) (download_stream cl d id chunks).
Proof.
  induction chunks as [|c rest IH]; simpl; [stable_step|].
  apply stable_bind; [apply _ | apply same_at_download_chunk | intros _; exact IH].
Qed.

Lemma same_at_download_finish id complete :
  stable (same_at p) (download_finish cl d id complete).
Proof. unfold download_finish. destruct complete; repeat stable_step. Qed.

Lemma same_at_download : stable (same_at p) (download env cl d).
Proof.
  unfold download.
  apply stable_bind; [apply _ | apply same_at_download_begin | intros id].
  apply stable_bind; [apply _ | apply same_at_download_respond | intros [chunks complete]].
  apply stable_bind; [apply _ | apply same_at_download_stream | intros _].
  apply same_at_download_finish.
Qed.

End DownloadFrame.

(** ** Task group *)

Lemma map_insert_same {A B} (f : A -> B) (l : list A) i x y :
  l !! i = Some x -> f y = f x -> map f (<[i := y]> l) = map f l.
Proof.
  revert i. induction l as [|a l IH]; intros [|i]; simpl; try discriminate.
  - intros [= ->] ->. reflexivity.
  - intros Hi Hf. f_equal. eapply IH; eassumption.
Qed.

Lemma renamed_later cl d P w0 w w' :
  renamed cl d w0 w -> logged P w w' -> renamed cl d w0 w'.
Proof.
  intros (evs & Hlog & Hin) (evs' & Hlog' & _). exists (evs ++ evs')%list.
  split; [rewrite Hlog', Hlog; symmetry; apply app_assoc|].
  apply in_or_app. left. exact Hin.
Qed.

Lemma task_good_later env cl P w0 t w w' :
  task_good env cl w0 t w -> logged P w w' -> task_good env cl w0 t w'.
Proof.
  unfold task_good. destruct (task_at t); try tauto.
  intros [Hs Hr] Hl. split; [exact Hs | eapply renamed_later; eassumption].
Qed.

Section Group.

Variable env : environment.
Variable cl : closure.

Lemma download_respond_ok d id w chunks complete w' :
  download_respond env cl d id w = (Ok (chunks, complete), w') ->
  served env cl d complete.
Proof.
  unfold download_respond, served.
  destruct (server _ _ _ _) as [|resp]; [discriminate|].
  destruct (response_ok resp) eqn:Hok; simpl; [|discriminate].
  unfold mbind, M_bind, bind, lift.
  destruct (match content_length resp with Some h => int h | None => Ok 0 end);
    simpl; [|discriminate].
  intros [= _ <- _]. eauto.
Qed.

Lemma download_finish_ok d id complete w w' :
  download_finish cl d id complete w = (Ok tt, w') ->
  complete = true
  /\ log w' = (log w ++ [EvUnlink (save_file cl d);
                         EvRename (download_file cl d) (save_file cl d)])%list.
Proof.
  destruct complete; [|discriminate]. intros Hrun. split; [reflexivity|].
  revert Hrun. unfold download_finish, unlink_missing_ok, rename.
  unfold mbind, M_bind, bind, emit, set_fs, report. simpl.
  destruct (delete (save_file cl d) (fs w) !! download_file cl d); simpl;
    [|discriminate].
  intros [= <-]. simpl. rewrite <- app_assoc. reflexivity.
Qed.

Lemma logged_task_step t :
  stable (logged (task_event cl (task_distro t))) (task_step env cl t).
Proof.
  unfold task_step. destruct (task_at t) as [|id|id [|c rest] complete|id|e].
  - apply stable_bind; [apply _ | apply logged_download_begin | intros; stable_step].
  - apply stable_bind; [apply _ | apply logged_download_respond |].
    intros [chunks complete]. stable_step.
  - apply stable_bind; [apply _ | apply logged_download_finish | intros; stable_step].
  - apply stable_bind; [apply _ | apply logged_download_chunk | intros; stable_step].
  - stable_step.
  - stable_step.
Qed.

Lemma logged_task_resume t :
  stable (logged (task_event cl (task_distro t))) (task_resume env cl t).
Proof.
  unfold task_resume. destruct (task_at t) as [|id|id chunks complete|id|e].
  - apply logged_download.
  - apply stable_bind; [apply _ | apply logged_download_respond |].
    intros [chunks complete].
    apply stable_bind; [apply _ | apply logged_download_stream | intros _].
    apply logged_download_finish.
  - apply stable_bind; [apply _ | apply logged_download_stream | intros _].
    apply logged_download_finish.
  - stable_step.
  - stable_step.
Qed.

Lemma same_at_task_step p t :
  p <> save_file cl (task_distro t) -> p <> download_file cl (task_distro t) ->
  stable (same_at p) (task_step env cl t).
Proof.
  intros Hs Ht.
  unfold task_step. destruct (task_at t) as [|id|id [|c rest] complete|id|e].
  - apply stable_bind; [apply _ | apply same_at_download_begin; assumption
                       | intros; stable_step].
  - apply stable_bind; [apply _ | apply same_at_download_respond; assumption |].
    intros [chunks complete]. stable_step.
  - apply stable_bind; [apply _ | apply same_at_download_finish; assumption
                       | intros; stable_step].
  - apply stable_bind; [apply _ | apply same_at_download_chunk; assumption
                       | intros; stable_step].
  - stable_step.
  - stable_step.
Qed.

Lemma same_at_task_resume p t :
  p <> save_file cl (task_distro t) -> p <> download_file cl (task_distro t) ->
  stable (same_at p) (task_resume env cl t).
Proof.
  intros Hs Ht.
  unfold task_resume. destruct (task_at t) as [|id|id chunks complete|id|e].
  - apply same_at_download; assumption.
  - apply stable_bind; [apply _ | apply same_at_download_respond; assumption |].
    intros [chunks complete].
    apply stable_bind; [apply _ | apply same_at_download_stream; assumption | intros _].
    apply same_at_download_finish; assumption.
  - apply stable_bind; [apply _ | apply same_at_download_stream; assumption | intros _].
    apply same_at_download_finish; assumption.
  - stable_step.
  - stable_step.
Qed.

End Group.

Lemma bind_run_ok {A B} (m : M A) (k : A -> M B) w a w1 :
  m w = (Ok a, w1) -> (m ≫= k) w = k a w1.
Proof. intros H. unfold mbind, M_bind, bind. rewrite H. reflexivity. Qed.

Lemma bind_run_raise {A B} (m : M A) (k : A -> M B) w e w1 :
  m w = (Raise e, w1) -> (m ≫= k) w = (Raise e, w1).
Proof. intros H. unfold mbind, M_bind, bind. rewrite H. reflexivity. Qed.

Lemma bind_ok {A B} (m : M A) (k : A -> M B) w b w' :
  (m ≫= k) w = (Ok b, w') ->
  exists a w1, m w = (Ok a, w1) /\ k a w1 = (Ok b, w').
Proof.
  unfold mbind, M_bind, bind. destruct (m w) as [[a|e] w1]; [eauto | discriminate].
Qed.

Lemma stable_run {A} R (m : M A) w r w' : stable R m -> m w = (r, w') -> R w w'.
Proof. intros Hm Hrun. specialize (Hm w). rewrite Hrun in Hm. exact Hm. Qed.

Lemma logged_any P w w' : logged P w w' -> logged (fun _ => True) w w'.
Proof. apply logged_weaken. auto. Qed.

Section GroupRun.

Variable env : environment.
Variable cl : closure.
Variable w0 : world.

Abbreviation later := (logged (fun _ : event => True) w0).

Lemma finish_renamed d id complete w w' :
  later w ->
  download_finish cl d id complete w = (Ok tt, w') ->
  complete = true /\ renamed cl d w0 w'.
Proof.
  intros (evs & Hlog & _) Hrun.
  apply download_finish_ok in Hrun as [-> Hlog']. split; [reflexivity|].
  eexists. split; [rewrite Hlog', Hlog, <- app_assoc; reflexivity|].
  apply in_or_app. right. simpl. auto.
Qed.

Lemma stream_finish_good d id chunks complete w w' :
  later w ->
  (download_stream cl d id chunks ;; download_finish cl d id complete) w = (Ok tt, w') ->
  complete = true /\ renamed cl d w0 w'.
Proof.
  intros Hw Hrun. apply bind_ok in Hrun as ([] & w1 & Hstream & Hfin).
  eapply finish_renamed; [|exact Hfin].
  etransitivity; [exact Hw|].
  eapply logged_any, stable_run; [apply logged_download_stream | exact Hstream].
Qed.

Lemma respond_finish_good d id w w' :
  later w ->
  ('(chunks, complete) ← download_respond env cl d id ;
   download_stream cl d id chunks ;; download_finish cl d id complete) w = (Ok tt, w') ->
  served env cl d true /\ renamed cl d w0 w'.
Proof.
  intros Hw Hrun. apply bind_ok in Hrun as ([chunks complete] & w1 & Hresp & Hrest).
  pose proof (download_respond_ok _ _ _ _ _ _ _ _ Hresp) as Hserved.
  assert (later w1) as Hw1.
  { etransitivity; [exact Hw|].
    eapply logged_any, stable_run; [apply logged_download_respond | exact Hresp]. }
  destruct (stream_finish_good _ _ _ _ _ _ Hw1 Hrest) as [-> Hren]. auto.
Qed.

Lemma task_resume_good t w w' :
  later w -> task_good env cl w0 t w ->
  task_resume env cl t w = (Ok tt, w') ->
  served env cl (task_distro t) true /\ renamed cl (task_distro t) w0 w'.
Proof.
  intros Hw Hgood. unfold task_resume, task_good in *.
  destruct (task_at t) as [|id|id chunks complete|id|e]; intros Hrun.
  - unfold download in Hrun. apply bind_ok in Hrun as (id & w1 & Hbegin & Hrest).
    eapply respond_finish_good; [|exact Hrest].
    etransitivity; [exact Hw|].
    eapply logged_any, stable_run; [apply logged_download_begin | exact Hbegin].
  - eapply respond_finish_good; eassumption.
  - destruct (stream_finish_good _ _ _ _ _ _ Hw Hrun) as [-> Hren]. auto.
  - injection Hrun as <-. exact Hgood.
  - discriminate Hrun.
Qed.

Lemma task_step_good t w r w' :
  later w -> task_good env cl w0 t w ->
  task_step env cl t w = (r, w') ->
  task_good env cl w0
    (mkTask (task_distro t) (match r with Ok s => s | Raise e => Failed e end)) w'.
Proof.
  intros Hw Hgood Hrun. destruct r as [s|e]; [|exact I].
  unfold task_step, task_good in *. simpl.
  destruct (task_at t) as [|id|id [|c rest] complete|id|e].
  - apply bind_ok in Hrun as (id & w1 & _ & [= <- _]). exact I.
  - apply bind_ok in Hrun as ([chunks complete] & w1 & Hresp & [= <- _]).
    eapply download_respond_ok, Hresp.
  - apply bind_ok in Hrun as ([] & w1 & Hfin & [= <- <-]).
    destruct (finish_renamed _ _ _ _ _ Hw Hfin) as [-> Hren]. auto.
  - apply bind_ok in Hrun as ([] & w1 & _ & [= <- _]). exact Hgood.
  - injection Hrun as <- <-. exact Hgood.
  - injection Hrun as <- _. exact I.
Qed.

Variable distros : list FactorioDistro.
Variable p : path.
Hypothesis p_free : forall d, p <> save_file cl d /\ p <> download_file cl d.

Abbreviation G := (group_event cl distros).

Lemma task_event_group t e :
  In (task_distro t) distros -> task_event cl (task_distro t) e -> G e.
Proof. intros Hin He. exists (task_distro t). auto. Qed.

Lemma run_schedule_spec schedule : forall tasks w,
  logged G w0 w -> same_at p w0 w ->
  map task_distro tasks = distros ->
  Forall (fun t => task_good env cl w0 t w) tasks ->
  exists tasks' w',
    run_schedule env cl schedule tasks w = (Ok tasks', w')
    /\ logged G w0 w' /\ same_at p w0 w'
    /\ map task_distro tasks' = distros
    /\ Forall (fun t => task_good env cl w0 t w') tasks'.
Proof.
  induction schedule as [|i schedule IH]; intros tasks w Hlog Hsame Hmap Hgood.
  - exists tasks, w. simpl. auto.
  - simpl. destruct (tasks !! i) as [t|] eqn:Hi; [|apply IH; assumption].
    destruct (task_step env cl t w) as [r w1] eqn:Hstep.
    assert (In (task_distro t) distros) as Hin.
    { rewrite <- Hmap. apply in_map. eapply list_elem_of_In, list_elem_of_lookup_2, Hi. }
    assert (logged G w w1) as Hstep_log.
    { eapply logged_weaken; [intros e; apply task_event_group, Hin|].
      eapply stable_run; [apply logged_task_step | exact Hstep]. }
    apply IH.
    + etransitivity; eassumption.
    + etransitivity; [exact Hsame|].
      eapply stable_run; [apply same_at_task_step; apply p_free | exact Hstep].
    + rewrite <- Hmap. eapply map_insert_same; [exact Hi | reflexivity].
    + apply Forall_insert.
      * eapply Forall_impl; [exact Hgood|]. intros t' Ht'.
        exact (task_good_later _ _ _ _ _ _ _ Ht' Hstep_log).
      * eapply task_step_good; [eapply logged_any, Hlog | | exact Hstep].
        exact (Forall_lookup_1 _ _ _ _ Hgood Hi).
Qed.

Lemma join_all_spec : forall tasks w r w',
  logged G w0 w -> same_at p w0 w ->
  Forall (fun t => In (task_distro t) distros) tasks ->
  Forall (fun t => task_good env cl w0 t w) tasks ->
  join_all env cl tasks w = (r, w') ->
  logged G w0 w' /\ same_at p w0 w'
  /\ (r = Ok tt ->
      Forall (fun t => served env cl (task_distro t) true
                       /\ renamed cl (task_distro t) w0 w') tasks).
Proof.
  induction tasks as [|t tasks IH]; intros w r w' Hlog Hsame Hin Hgood Hrun.
  - injection Hrun as <- <-. auto.
  - simpl in Hrun. unfold mbind, M_bind, bind in Hrun.
    inversion Hin as [|? ? Hint Hins]; subst.
    inversion Hgood as [|? ? Hgt Hgs]; subst.
    destruct (task_resume env cl t w) as [[[]|e] w1] eqn:Hres.
    + assert (logged G w w1) as Hstep_log.
      { eapply logged_weaken; [intros e0; apply task_event_group, Hint|].
        eapply stable_run; [apply logged_task_resume | exact Hres]. }
      destruct (IH w1 r w') as (Hlog' & Hsame' & Hok); try assumption.
      * etransitivity; eassumption.
      * etransitivity; [exact Hsame|].
        eapply stable_run; [apply same_at_task_resume; apply p_free | exact Hres].
      * eapply Forall_impl; [exact Hgs|]. intros t' Ht'.
        exact (task_good_later _ _ _ _ _ _ _ Ht' Hstep_log).
      * repeat split; try assumption. intros Hr. constructor; [|auto].
        destruct (task_resume_good _ _ _ (logged_any _ _ _ Hlog) Hgt Hres)
          as [Hserved Hren].
        split; [exact Hserved|].
        eapply renamed_later; [exact Hren|].
        eapply (stable_run (logged (fun _ => True))); [|exact Hrun].
        clear. induction tasks as [|t' tasks IH']; simpl; [stable_step|].
        apply stable_bind; [apply _ | | intros _; exact IH'].
        intros w. eapply logged_any, logged_task_resume.
    + injection Hrun as <- <-. repeat split.
      * etransitivity; [exact Hlog|].
        eapply logged_weaken; [intros e0; apply task_event_group, Hint|].
        eapply stable_run; [apply logged_task_resume | exact Hres].
      * etransitivity; [exact Hsame|].
        eapply stable_run; [apply same_at_task_resume; apply p_free | exact Hres].
      * discriminate.
Qed.

End GroupRun.

Lemma task_group_spec env cl p schedule distros w r w' :
  (forall d, p <> save_file cl d /\ p <> download_file cl d) ->
  task_group env cl schedule distros w = (r, w') ->
  logged (group_event cl distros) w w' /\ same_at p w w'
  /\ match r with
     | Ok _ => forall d, In d distros -> served env cl d true /\ renamed cl d w w'
     | Raise e => exists e', e = ExceptionGroup e'
     end.
Proof.
  intros Hfree. unfold task_group, mbind, M_bind, bind.
  destruct (run_schedule_spec env cl w distros p Hfree schedule
              (map (fun d => mkTask d Created) distros) w)
    as (tasks & w1 & -> & Hlog & Hsame & Hmap & Hgood).
  - reflexivity.
  - reflexivity.
  - rewrite map_map. simpl. apply map_id.
  - apply Forall_forall. intros t Ht. apply list_elem_of_In, in_map_iff in Ht.
    destruct Ht as (d0 & <- & _). exact I.
  - destruct (first_failure tasks) as [e|].
    + intros [= <- <-]. eauto.
    + destruct (join_all env cl tasks w1) as [r1 w2] eqn:Hjoin.
      assert (Forall (fun t => In (task_distro t) distros) tasks) as Hin.
      { apply Forall_forall. intros t Ht. rewrite <- Hmap.
        apply in_map, list_elem_of_In, Ht. }
      destruct (join_all_spec env cl w distros p Hfree tasks w1 r1 w2
                  Hlog Hsame Hin Hgood Hjoin) as (Hlog2 & Hsame2 & Hok).
      destruct r1 as [[]|e]; intros [= <- <-];
        (split; [exact Hlog2 | split; [exact Hsame2|]]); [|eauto].
      intros d0 Hd. rewrite <- Hmap in Hd. apply in_map_iff in Hd as (t0 & <- & Ht).
      rename t0 into t.
      specialize (Hok eq_refl).
      exact (proj1 (Forall_forall _ _) Hok t (proj2 (list_elem_of_In _ _) Ht)).
Qed.

(** ** Orchestrator *)

Lemma get_latest_version_world env b w :
  (get_latest_version env b w).2
  = mkWorld (fs w) (log w ++ [EvGet LATEST_RELEASE_URL]) (progress w) (console w).
Proof.
  unfold get_latest_version, mbind, M_bind, bind, lift, emit. simpl.
  destruct (latest_releases env) as [info|]; simpl; [|reflexivity].
  destruct (getitem "stable" info) as [stable|]; simpl; [|reflexivity].
  destruct (getitem (build_value b) stable); reflexivity.
Qed.

(** What a decision to go on tells about the run so far. *)
Lemma main_decide_ok env a w cl dv w1 :
  main_decide env a w = (Ok (cl, dv), w1) ->
  save_dir cl = arg_outdir a /\ build cl = arg_build a
  /\ get_downloaded_version (fs w) (version_file_of a) = Ok dv
  /\ (if String.eqb (arg_version a) "latest" then requested_version cl = Latest
      else exists v, Version.from_str (arg_version a) = Ok v
                     /\ requested_version cl = Exact v)
  /\ fs w1 = fs w /\ progress w1 = progress w /\ console w1 = console w
  /\ log w1 = (log w ++ match dv, requested_version cl with
                        | Some _, Latest => [EvGet LATEST_RELEASE_URL]
                        | _, _ => []
                        end)%list.
Proof.
  unfold main_decide, version_file_of, mbind, M_bind, bind, mret, M_ret, ret, raise, lift.
  destruct (credentials env) as [[u t]|]; [|discriminate].
  assert (Hnil : forall l : list event, l = (l ++ [])%list)
    by (intros; symmetry; apply app_nil_r).
  destruct (String.eqb (arg_version a) "latest") eqn:Hsel.
  - destruct (get_downloaded_version (fs w) _) as [[downloaded|]|]; [| |discriminate].
    + pose proof (get_latest_version_world env (arg_build a) w) as Hw.
      destruct (get_latest_version env (arg_build a) w) as [[latest|] w2];
        [|discriminate].
      simpl in Hw. subst w2.
      destruct (Version.eqb latest downloaded); [discriminate|].
      destruct (Version.ltb latest downloaded); [discriminate|].
      intros [= <- <- <-]. simpl. auto 10.
    + intros [= <- <- <-]. simpl. auto 10.
  - destruct (Version.from_str (arg_version a)) as [v|]; [|discriminate].
    destruct (get_downloaded_version (fs w) _) as [[downloaded|]|]; [| |discriminate].
    + destruct (Version.eqb downloaded v); [discriminate|].
      intros [= <- <- <-]. simpl. eauto 12.
    + intros [= <- <- <-]. simpl. eauto 12.
Qed.

(** The download phase: the marker is removed first, the tasks never touch
    it, and it is written last, only when the group has returned. *)
Lemma main_download_spec env a schedule cl dv w1 r w' :
  main_download env a schedule cl dv w1 = (r, w') ->
  let marker := (save_dir cl, DOWNLOADED_VERSION_FILE) in
  exists evs,
    Forall (group_event cl (arg_distro a)) evs
    /\ match r with
       | Ok _ =>
           log w' = (log w1 ++ EvUnlink marker :: evs
                       ++ [EvWriteText marker (marker_text dv (requested_version cl))])%list
           /\ (forall d, In d (arg_distro a) ->
                 served env cl d true
                 /\ In (EvRename (download_file cl d) (save_file cl d)) evs)
           /\ fs w' !! marker = Some (marker_text dv (requested_version cl))
       | Raise e =>
           log w' = (log w1 ++ EvUnlink marker :: evs)%list
           /\ fs w' !! marker = None
           /\ exists e', e = ExceptionGroup e'
       end.
Proof.
  intros Hrun. cbv zeta. unfold main_download in Hrun.
  set (marker := (save_dir cl, DOWNLOADED_VERSION_FILE)) in *.
  set (w2 := mkWorld (delete marker (fs w1)) (log w1 ++ [EvUnlink marker])
               (progress w1) (console w1)).
  assert (unlink_missing_ok marker w1 = (Ok tt, w2)) as Hunlink by reflexivity.
  unfold mbind, M_bind, bind in Hrun. rewrite Hunlink in Hrun.
  destruct (task_group env cl schedule (arg_distro a) w2) as [rg w3] eqn:Hgroup.
  destruct (task_group_spec env cl marker schedule (arg_distro a) w2 rg w3
              (marker_not_task_path cl) Hgroup) as ((evs & Hlog & Hall) & Hsame & Hres).
  assert (fs w3 !! marker = None) as Habsent.
  { etransitivity; [exact Hsame|]. apply lookup_delete_eq. }
  exists evs. split; [exact Hall|].
  destruct rg as [[]|e]; revert Hrun.
  - unfold write_text, mbind, M_bind, bind, emit, set_fs. simpl.
    intros [= <- <-]. simpl. split; [|split].
    + rewrite Hlog. simpl. rewrite <- !app_assoc. reflexivity.
    + intros d Hd. destruct (Hres d Hd) as [Hserved (evs' & Hlog' & Hin)].
      split; [exact Hserved|].
      rewrite Hlog in Hlog'. apply app_inv_head in Hlog'. subst evs'. exact Hin.
    + apply lookup_insert_eq.
  - intros [= <- <-]. split; [|split].
    + rewrite Hlog. simpl. rewrite <- app_assoc. reflexivity.
    + exact Habsent.
    + exact Hres.
Qed.

Lemma main_run env a schedule w cl dv w1 :
  main_decide env a w = (Ok (cl, dv), w1) ->
  main env a schedule w = main_download env a schedule cl dv w1.
Proof. intros H. unfold main, mbind, M_bind, bind. rewrite H. reflexivity. Qed.

Lemma main_ok env a schedule w w' :
  main env a schedule w = (Ok tt, w') ->
  exists cl dv w1, main_decide env a w = (Ok (cl, dv), w1)
    /\ main_download env a schedule cl dv w1 = (Ok tt, w').
Proof.
  intros H. apply bind_ok in H as ([cl dv] & w1 & Hdec & Hrun). eauto.
Qed.

(** [C3] Whenever the orchestrator goes on to download, it first removes
    the marker file, whether it exists or not; no download task touches the
    marker; the marker is written last, only after every task has been
    served and has renamed its file into place; and when a task fails the
    run raises, nothing is written, and the marker is absent at the end. *)
Theorem marker_all_or_nothing env a schedule w cl dv w1 r w' :
  main_decide env a w = (Ok (cl, dv), w1) ->
  main env a schedule w = (r, w') ->
  exists evs,
    Forall (fun e => touches (version_file_of a) e = false) evs
    /\ ((exists d, In d (arg_distro a) /\ ~ served env cl d true) ->
        exists e, r = Raise e)
    /\ match r with
       | Ok _ =>
           log w' = (log w1 ++ EvUnlink (version_file_of a) :: evs
                       ++ [EvWriteText (version_file_of a)
                             (marker_text dv (requested_version cl))])%list
           /\ (forall d, In d (arg_distro a) ->
                 served env cl d true
                 /\ In (EvRename (download_file cl d) (save_file cl d)) evs)
           /\ fs w' !! version_file_of a
              = Some (marker_text dv (requested_version cl))
       | Raise e =>
           log w' = (log w1 ++ EvUnlink (version_file_of a) :: evs)%list
           /\ fs w' !! version_file_of a = None
       end.
Proof.
  intros Hdec Hrun. rewrite (main_run _ _ _ _ _ _ _ Hdec) in Hrun.
  apply main_decide_ok in Hdec as (Hdir & _).
  apply main_download_spec in Hrun as (evs & Hall & Hres).
  unfold version_file_of. rewrite <- Hdir. exists evs. split; [|split].
  - eapply Forall_impl; [exact Hall|]. intros e (d & _ & He).
    eapply task_event_touches, He.
  - intros (d & Hin & Hnot). destruct r as [[]|e]; [|eauto].
    destruct Hres as (_ & Hserved & _). destruct (Hserved d Hin) as [Hs _]. tauto.
  - destruct r as [[]|e]; [exact Hres|]. destruct Hres as (Hlog & Habs & _). auto.
Qed.

Lemma marker_all_or_nothing_witness :
  let env := sample_env "1.2.0" refusing_server in
  let a := sample_args "latest" in
  let w := sample_world (Some ("1.1.0" ++ nl)) in
  let schedule := [0; 1; 0]%nat in
  main_decide env a w
  = (Ok (mkClosure Latest EXPANSION "out" "out" "user" "token",
         Some (mkVersion 1 1 0)), (main_decide env a w).2)
  /\ main env a schedule w
     = (Raise (ExceptionGroup (ClientResponseError 403)), (main env a schedule w).2)
  /\ fs (main env a schedule w).2 !! sample_marker = None.
Proof.
  intros env a w schedule.
  assert (main_decide env a w
          = (Ok (mkClosure Latest EXPANSION "out" "out" "user" "token",
                 Some (mkVersion 1 1 0)), (main_decide env a w).2)) as Hdec
    by (vm_compute; reflexivity).
  assert (main env a schedule w
          = (Raise (ExceptionGroup (ClientResponseError 403)),
             (main env a schedule w).2)) as Hrun
    by (vm_compute; reflexivity).
  split; [exact Hdec|]. split; [exact Hrun|].
  destruct (marker_all_or_nothing env a schedule w _ _ _ _ _ Hdec Hrun)
    as (evs & _ & _ & _ & Habsent).
  exact Habsent.
Defined.

(** [C2], as the code has it: in a run that asks for [latest] and goes on
    to download, the resolver is queried only when a marker file was read,
    its answer is used for the decision only, and every download request
    goes to the URL built from the word [latest] itself. *)
Theorem latest_download_urls env a schedule w cl dv w1 r w' :
  arg_version a = "latest" ->
  main_decide env a w = (Ok (cl, dv), w1) ->
  main env a schedule w = (r, w') ->
  log w1 = (log w ++ match dv with
                     | Some _ => [EvGet LATEST_RELEASE_URL]
                     | None => []
                     end)%list
  /\ exists evs,
       log w' = (log w1 ++ evs)%list
       /\ forall url, In (EvGet url) evs ->
            exists d, In d (arg_distro a)
              /\ url = DOWNLOAD_URL_TEMPLATE "latest" (build_value (arg_build a))
                         (distro_value d).
Proof.
  intros Hsel Hdec Hrun. rewrite (main_run _ _ _ _ _ _ _ Hdec) in Hrun.
  apply main_decide_ok in Hdec as (_ & Hbuild & _ & Hreq & _ & _ & _ & Hlog1).
  rewrite Hsel in Hreq. simpl in Hreq. rewrite Hreq in Hlog1.
  split; [destruct dv; exact Hlog1|].
  apply main_download_spec in Hrun as (evs & Hall & Hres).
  assert (Hurls : forall url, In (EvGet url) evs ->
            exists d, In d (arg_distro a)
              /\ url = DOWNLOAD_URL_TEMPLATE "latest" (build_value (arg_build a))
                         (distro_value d)).
  { intros url Hin.
    destruct (proj1 (Forall_forall _ _) Hall _ (proj2 (list_elem_of_In _ _) Hin))
      as (d & Hd & He).
    exists d. split; [exact Hd|].
    destruct He as [He | [He | [He | [[n He] | [He | He]]]]]; try discriminate He.
    injection He as ->. unfold download_url. rewrite Hreq, Hbuild. reflexivity. }
  destruct r as [[]|e].
  - destruct Hres as (Hlog & _). eexists. split; [exact Hlog|].
    intros url [Hin|Hin]; [discriminate Hin|].
    apply in_app_or in Hin as [Hin|[Hin|[]]]; [auto | discriminate Hin].
  - destruct Hres as (Hlog & _). eexists. split; [exact Hlog|].
    intros url [Hin|Hin]; [discriminate Hin | auto].
Qed.

Ltac find_in := vm_compute; repeat first [left; reflexivity | right].

Lemma latest_download_urls_witness :
  let env := sample_env "1.2.0" sample_server in
  let a := sample_args "latest" in
  let w := sample_world (Some ("1.1.0" ++ nl)) in
  let schedule := [1; 0; 1]%nat in
  arg_version a = "latest"
  /\ main_decide env a w
     = (Ok (mkClosure Latest EXPANSION "out" "out" "user" "token",
            Some (mkVersion 1 1 0)), (main_decide env a w).2)
  /\ main env a schedule w = (Ok tt, (main env a schedule w).2)
  /\ In (EvGet "https://www.factorio.com/get-download/latest/expansion/osx")
        (log (main env a schedule w).2)
  /\ exists evs,
       log (main env a schedule w).2 = (log (main_decide env a w).2 ++ evs)%list
       /\ forall url, In (EvGet url) evs ->
            exists d, In d (arg_distro a)
              /\ url = DOWNLOAD_URL_TEMPLATE "latest" "expansion" (distro_value d).
Proof.
  intros env a w schedule.
  assert (main_decide env a w
          = (Ok (mkClosure Latest EXPANSION "out" "out" "user" "token",
                 Some (mkVersion 1 1 0)), (main_decide env a w).2)) as Hdec
    by (vm_compute; reflexivity).
  assert (main env a schedule w = (Ok tt, (main env a schedule w).2)) as Hrun
    by (vm_compute; reflexivity).
  split; [reflexivity|]. split; [exact Hdec|]. split; [exact Hrun|].
  split; [find_in|].
  exact (proj2 (latest_download_urls env a schedule w _ _ _ _ _ eq_refl Hdec Hrun)).
Defined.

Lemma str_int_first n :
  exists c s, str_int n = String c s /\ is_numeral c = true.
Proof.
  pose proof (str_int_numeral n) as Hall. unfold str_int in *.
  destruct (n <? 0); [eauto|].
  unfold digits in *.
  destruct (digits_aux_nonempty (Z.to_nat (Z.log2 n)) n EmptyString) as (c & s & Hcs).
  rewrite Hcs in *. simpl in Hall. apply andb_true_iff in Hall as [Hc _]. eauto.
Qed.

(** [C2], as stated, fails: with no marker file and the selector [latest],
    the run downloads from the URL of the literal word [latest]; there is
    no version whose text the download requests carry. *)
Lemma latest_url_not_resolved :
  ~ (exists v : FactorioVersion,
       forall url,
         In (EvGet url)
            (log (main (sample_env "1.2.0" sample_server) (sample_args "latest") []
                    (sample_world None)).2) ->
         url = LATEST_RELEASE_URL
         \/ exists d, url = DOWNLOAD_URL_TEMPLATE (Version.to_str v)
                              (build_value EXPANSION) (distro_value d)).
Proof.
  intros (v & H).
  assert (In (EvGet "https://www.factorio.com/get-download/latest/expansion/osx")
            (log (main (sample_env "1.2.0" sample_server) (sample_args "latest") []
                    (sample_world None)).2)) as Hin
    by find_in.
  destruct (H _ Hin) as [Hurl | (d & Hurl)].
  - discriminate Hurl.
  - unfold DOWNLOAD_URL_TEMPLATE, Version.to_str in Hurl.
    destruct (str_int_first (major v)) as (c & s & Hs & Hc).
    rewrite Hs in Hurl. simpl in Hurl. injection Hurl as Hl _.
    subst c. discriminate Hc.
Qed.

(** [C1] fails on the code: with the marker at 1.1.0 and the explicit
    request 1.2.0, the four archives are fetched from the 1.2.0 URLs and
    renamed into place, the run returns, and the marker then holds 1.1.0
    again, the version read at the start. *)
Example stale_marker_after_download :
  let run := main (sample_env "1.2.0" sample_server) (default_args "1.2.0") [0; 1; 2; 3]%nat
               (sample_world (Some ("1.1.0" ++ nl))) in
  run.1 = Ok tt
  /\ (forall d, In (EvGet (DOWNLOAD_URL_TEMPLATE "1.2.0" "expansion" (distro_value d)))
                   (log run.2))
  /\ last (log run.2) = Some (EvWriteText sample_marker ("1.1.0" ++ nl))
  /\ fs run.2 !! sample_marker = Some ("1.1.0" ++ nl).
Proof.
  cbv zeta. split; [vm_compute; reflexivity|].
  split; [intros []; find_in|]. split; vm_compute; reflexivity.
Qed.

(** The same defect on the [latest] path: the resolver answers 1.2.0, the
    run downloads, and the marker holds 1.1.0 at the end. *)
Example stale_marker_after_latest :
  let run := main (sample_env "1.2.0" sample_server) (default_args "latest") []
               (sample_world (Some ("1.1.0" ++ nl))) in
  run.1 = Ok tt /\ fs run.2 !! sample_marker = Some ("1.1.0" ++ nl).
Proof. vm_compute. auto. Qed.

(** Without a marker the explicit request is what the marker receives. *)
Example marker_after_first_download :
  let run := main (sample_env "1.2.0" sample_server) (default_args "1.2.0") []
               (sample_world None) in
  run.1 = Ok tt /\ fs run.2 !! sample_marker = Some ("1.2.0" ++ nl).
Proof. vm_compute. auto. Qed.

Lemma read_latest_marker (files : gmap path string) p :
  files !! p = Some ("latest" ++ nl) ->
  get_downloaded_version files p = Raise ValueError.
Proof. intros H. unfold get_downloaded_version. rewrite H. reflexivity. Qed.

(** [C10] With no marker file and the selector [latest], a run in which
    every download task succeeds writes the word [latest] and a newline
    into the marker file, and reading that marker back fails in the version
    parser instead of returning a version. *)
Theorem latest_marker_unreadable env a schedule w w' :
  arg_version a = "latest" ->
  fs w !! version_file_of a = None ->
  main env a schedule w = (Ok tt, w') ->
  fs w' !! version_file_of a = Some ("latest" ++ nl)
  /\ get_downloaded_version (fs w') (version_file_of a) = Raise ValueError.
Proof.
  intros Hsel Habsent Hrun.
  apply main_ok in Hrun as (cl & dv & w1 & Hdec & Hrun).
  apply main_decide_ok in Hdec as (Hdir & _ & Hread & Hreq & _).
  rewrite Hsel in Hreq. simpl in Hreq.
  unfold get_downloaded_version in Hread. rewrite Habsent in Hread.
  injection Hread as <-.
  apply main_download_spec in Hrun as (evs & _ & _ & _ & Hmarker).
  rewrite Hreq, Hdir in Hmarker. unfold version_file_of.
  split; [exact Hmarker|].
  exact (read_latest_marker _ _ Hmarker).
Qed.

Lemma latest_marker_unreadable_witness :
  let env := sample_env "1.2.0" sample_server in
  let a := sample_args "latest" in
  let w := sample_world None in
  let schedule := [0; 0; 1; 1; 1; 0]%nat in
  arg_version a = "latest"
  /\ fs w !! version_file_of a = None
  /\ main env a schedule w = (Ok tt, (main env a schedule w).2)
  /\ get_downloaded_version (fs (main env a schedule w).2) (version_file_of a)
     = Raise ValueError.
Proof.
  intros env a w schedule.
  assert (main env a schedule w = (Ok tt, (main env a schedule w).2)) as Hrun
    by (vm_compute; reflexivity).
  split; [reflexivity|]. split; [reflexivity|]. split; [exact Hrun|].
  exact (proj2 (latest_marker_unreadable env a schedule w _ eq_refl eq_refl Hrun)).
Defined.

(** ** Reconciliation decision *)

Lemma main_unfold env a schedule w :
  main env a schedule w
  = match main_decide env a w with
    | (Ok (cl, dv), w1) => main_download env a schedule cl dv w1
    | (Raise e, w1) => (Raise e, w1)
    end.
Proof.
  unfold main, mbind, M_bind, bind.
  destruct (main_decide env a w) as [[[cl dv]|e] w1]; reflexivity.
Qed.

Lemma get_latest_version_run env b w latest :
  (get_latest_version env b w).1 = Ok latest ->
  get_latest_version env b w
  = (Ok latest,
     mkWorld (fs w) (log w ++ [EvGet LATEST_RELEASE_URL]) (progress w) (console w)).
Proof.
  intros H. pose proof (get_latest_version_world env b w) as Hw.
  destruct (get_latest_version env b w) as [r w1]. simpl in *. congruence.
Qed.

Lemma version_lt_newer a b : version_lt a b -> b <> a /\ ~ version_lt b a.
Proof.
  unfold version_lt. intros H. split.
  - intros ->. lia.
  - lia.
Qed.

(** ** The download phase requests the platforms *)

Lemma download_url_not_resolver cl d : download_url cl d <> LATEST_RELEASE_URL.
Proof. unfold download_url, DOWNLOAD_URL_TEMPLATE, LATEST_RELEASE_URL. discriminate. Qed.

Lemma group_event_not_resolver cl distros e :
  group_event cl distros e -> e <> EvGet LATEST_RELEASE_URL.
Proof.
  intros (d & _ & H) ->.
  destruct H as [H|[H|[H|[[n H]|[H|H]]]]];
    first [ discriminate H
          | injection H as H; symmetry in H;
            exact (download_url_not_resolver _ _ H) ].
Qed.

Lemma requested_later cl d P w0 w w' :
  requested cl d w0 w -> logged P w w' -> requested cl d w0 w'.
Proof.
  intros (evs & Hlog & Hin) (evs' & Hlog' & _). exists (evs ++ evs')%list.
  split; [rewrite Hlog', Hlog; symmetry; apply app_assoc|].
  apply in_or_app. left. exact Hin.
Qed.

Lemma requested_asked cl w0 t w :
  requested cl (task_distro t) w0 w -> task_asked cl w0 t w.
Proof. unfold task_asked. destruct (task_at t); auto. Qed.

Lemma task_asked_later cl P w0 t w w' :
  task_asked cl w0 t w -> logged P w w' -> task_asked cl w0 t w'.
Proof.
  unfold task_asked. destruct (task_at t); try tauto;
    intros; eapply requested_later; eassumption.
Qed.

Lemma first_failure_some tasks e :
  first_failure tasks = Some e -> exists t, In t tasks /\ task_at t = Failed e.
Proof.
  induction tasks as [|t tasks IH]; simpl; [discriminate|].
  unfold task_failure. destruct (task_at t) eqn:Hat;
    try (intros H; destruct (IH H) as (t' & Hin & Hat'); eauto).
  intros [= ->]. eauto.
Qed.

Section Requests.

Variable env : environment.
Variable cl : closure.
Variable w0 : world.

Abbreviation since := (logged (fun _ : event => True) w0).

Lemma begin_requested d w :
  since w -> requested cl d w0 (download_begin cl d w).2.
Proof.
  intros (evs & Hlog & _).
  exists (evs ++ [EvUnlink (download_file cl d); EvGet (download_url cl d)])%list.
  split.
  - simpl. rewrite Hlog, <- !app_assoc. reflexivity.
  - apply in_or_app. right. simpl. auto.
Qed.

Lemma task_step_asked t w r w' :
  since w -> task_asked cl w0 t w ->
  task_step env cl t w = (r, w') ->
  task_asked cl w0
    (mkTask (task_distro t) (match r with Ok s => s | Raise e => Failed e end)) w'.
Proof.
  intros Hw Hasked Hrun.
  assert (logged (fun _ => True) w w') as Hstep
    by (eapply logged_any, stable_run; [apply logged_task_step | exact Hrun]).
  destruct (task_at t) eqn:Hat.
  - unfold task_step in Hrun. rewrite Hat in Hrun.
    unfold mbind, M_bind, bind, mret, M_ret, ret in Hrun.
    pose proof (begin_requested (task_distro t) w Hw) as Hreq.
    destruct (download_begin cl (task_distro t) w) as [[id|e] w1];
      injection Hrun as <- <-; exact Hreq.
  - apply requested_asked. simpl. unfold task_asked in Hasked. rewrite Hat in Hasked.
    eapply requested_later; eassumption.
  - apply requested_asked. simpl. unfold task_asked in Hasked. rewrite Hat in Hasked.
    eapply requested_later; eassumption.
  - apply requested_asked. simpl. unfold task_asked in Hasked. rewrite Hat in Hasked.
    eapply requested_later; eassumption.
  - apply requested_asked. simpl. unfold task_asked in Hasked. rewrite Hat in Hasked.
    eapply requested_later; eassumption.
Qed.

Lemma run_schedule_asked schedule : forall tasks w,
  since w -> Forall (fun t => task_asked cl w0 t w) tasks ->
  exists tasks' w',
    run_schedule env cl schedule tasks w = (Ok tasks', w')
    /\ since w'
    /\ map task_distro tasks' = map task_distro tasks
    /\ Forall (fun t => task_asked cl w0 t w') tasks'.
Proof.
  induction schedule as [|i schedule IH]; intros tasks w Hw Hasked.
  - exists tasks, w. simpl. auto.
  - simpl. destruct (tasks !! i) as [t|] eqn:Hi; [|apply IH; assumption].
    destruct (task_step env cl t w) as [r w1] eqn:Hstep.
    assert (logged (fun _ => True) w w1) as Hlater
      by (eapply logged_any, stable_run; [apply logged_task_step | exact Hstep]).
    destruct (IH (<[i := mkTask (task_distro t)
                           (match r with Ok s => s | Raise e => Failed e end)]> tasks) w1)
      as (tasks' & w' & Hrun & Hw' & Hmap & Hasked').
    + etransitivity; eassumption.
    + apply Forall_insert.
      * eapply Forall_impl; [exact Hasked|]. intros t' Ht'.
        exact (task_asked_later _ _ _ _ _ _ Ht' Hlater).
      * eapply task_step_asked; [exact Hw | | exact Hstep].
        exact (Forall_lookup_1 _ _ _ _ Hasked Hi).
    + exists tasks', w'. split; [exact Hrun|]. split; [exact Hw'|].
      split; [|exact Hasked']. rewrite Hmap.
      eapply map_insert_same; [exact Hi | reflexivity].
Qed.

Lemma task_resume_requested t w r w' :
  since w -> task_asked cl w0 t w ->
  task_resume env cl t w = (r, w') ->
  requested cl (task_distro t) w0 w'.
Proof.
  intros Hw Hasked Hrun.
  destruct (task_at t) eqn:Hat.
  - unfold task_resume in Hrun. rewrite Hat in Hrun. unfold download in Hrun.
    set (w1 := (download_begin cl (task_distro t) w).2) in *.
    assert (download_begin cl (task_distro t) w
            = (Ok (next_task_id (progress w)), w1)) as Hbegin by reflexivity.
    rewrite (bind_run_ok _ _ _ _ _ Hbegin) in Hrun.
    eapply requested_later; [exact (begin_requested (task_distro t) w Hw)|].
    eapply (stable_run _ (task_resume env cl
                            (mkTask (task_distro t)
                               (AwaitResponse (next_task_id (progress w)))))).
    + apply logged_task_resume.
    + exact Hrun.
  - unfold task_asked in Hasked. rewrite Hat in Hasked.
    eapply requested_later; [exact Hasked|].
    eapply stable_run; [apply logged_task_resume | exact Hrun].
  - unfold task_asked in Hasked. rewrite Hat in Hasked.
    eapply requested_later; [exact Hasked|].
    eapply stable_run; [apply logged_task_resume | exact Hrun].
  - unfold task_asked in Hasked. rewrite Hat in Hasked.
    eapply requested_later; [exact Hasked|].
    eapply stable_run; [apply logged_task_resume | exact Hrun].
  - unfold task_asked in Hasked. rewrite Hat in Hasked.
    eapply requested_later; [exact Hasked|].
    eapply stable_run; [apply logged_task_resume | exact Hrun].
Qed.

Lemma logged_join_all tasks :
  stable (logged (fun _ : event => True)) (join_all env cl tasks).
Proof.
  induction tasks as [|t tasks IH]; simpl; [stable_step|].
  apply stable_bind; [apply _ | | intros _; exact IH].
  intros w. eapply logged_any, logged_task_resume.
Qed.

Lemma join_all_requested : forall tasks w r w',
  since w -> Forall (fun t => task_asked cl w0 t w) tasks ->
  join_all env cl tasks w = (r, w') ->
  match tasks with
  | t :: _ => requested cl (task_distro t) w0 w'
  | [] => True
  end
  /\ (r = Ok tt -> Forall (fun t => requested cl (task_distro t) w0 w') tasks).
Proof.
  induction tasks as [|t tasks IH]; intros w r w' Hw Hasked Hrun.
  - split; [exact I | constructor].
  - inversion Hasked as [|? ? Hat Hrest]; subst.
    simpl in Hrun. unfold mbind, M_bind, bind in Hrun.
    destruct (task_resume env cl t w) as [[[]|e] w1] eqn:Hres.
    + pose proof (task_resume_requested _ _ _ _ Hw Hat Hres) as Hreq.
      assert (logged (fun _ => True) w w1) as Hstep
        by (eapply logged_any, stable_run; [apply logged_task_resume | exact Hres]).
      assert (logged (fun _ => True) w1 w') as Hjoin
        by (eapply stable_run; [apply logged_join_all | exact Hrun]).
      assert (requested cl (task_distro t) w0 w') as Hreq'
        by (eapply requested_later; eassumption).
      split; [exact Hreq'|]. intros Hr. constructor; [exact Hreq'|].
      refine (proj2 (IH w1 r w' _ _ Hrun) Hr).
      * etransitivity; eassumption.
      * eapply Forall_impl; [exact Hrest|]. intros t' Ht'.
        exact (task_asked_later _ _ _ _ _ _ Ht' Hstep).
    + injection Hrun as <- <-. split; [|discriminate].
      exact (task_resume_requested _ _ _ _ Hw Hat Hres).
Qed.

End Requests.

(** A task group on at least one platform requests at least one archive,
    however its tasks are interleaved and however it ends; when it returns
    it has requested every one. *)
Lemma task_group_requested env cl schedule distros w r w' :
  task_group env cl schedule distros w = (r, w') ->
  (distros <> [] -> exists d, In d distros /\ requested cl d w w')
  /\ (r = Ok tt -> forall d, In d distros -> requested cl d w w').
Proof.
  unfold task_group, mbind, M_bind, bind.
  destruct (run_schedule_asked env cl w schedule
              (map (fun d => mkTask d Created) distros) w)
    as (tasks & w1 & -> & Hw1 & Hmap & Hasked).
  - reflexivity.
  - apply Forall_forall. intros t Ht. apply list_elem_of_In, in_map_iff in Ht.
    destruct Ht as (d0 & <- & _). exact I.
  - rewrite map_map in Hmap. simpl in Hmap. rewrite map_id in Hmap.
    destruct (first_failure tasks) as [e|] eqn:Hfail.
    + intros [= <- <-]. split; [|discriminate]. intros _.
      apply first_failure_some in Hfail as (t & Hin & Hat).
      exists (task_distro t). split; [rewrite <- Hmap; apply in_map, Hin|].
      pose proof (proj1 (Forall_forall _ _) Hasked t
                    (proj2 (list_elem_of_In _ _) Hin)) as Ht.
      unfold task_asked in Ht. rewrite Hat in Ht. exact Ht.
    + destruct (join_all env cl tasks w1) as [r1 w2] eqn:Hjoin.
      destruct (join_all_requested env cl w tasks w1 r1 w2 Hw1 Hasked Hjoin)
        as [Hfirst Hall].
      intros Hrun.
      assert (w2 = w') as <- by (destruct r1 as [[]|e]; congruence).
      split.
      * intros Hne. destruct tasks as [|t tasks]; [symmetry in Hmap; contradiction|].
        exists (task_distro t). split; [rewrite <- Hmap; simpl; auto | exact Hfirst].
      * intros ->. destruct r1 as [[]|e]; [|discriminate Hrun].
        intros d Hd. rewrite <- Hmap in Hd. apply in_map_iff in Hd as (t & <- & Ht).
        exact (proj1 (Forall_forall _ _) (Hall eq_refl) t
                 (proj2 (list_elem_of_In _ _) Ht)).
Qed.

(** The download phase: its first event is the removal of the marker; no
    later event is a request to the resolver; with at least one platform
    at least one archive is requested; and when the phase returns every
    platform has been requested and renamed into place.  It ends either by
    returning or with the exception group of its tasks. *)
Lemma main_download_requests env a schedule cl dv w1 r w' :
  main_download env a schedule cl dv w1 = (r, w') ->
  exists evs,
    log w' = (log w1 ++ EvUnlink (save_dir cl, DOWNLOADED_VERSION_FILE) :: evs)%list
    /\ Forall (fun e => e <> EvGet LATEST_RELEASE_URL) evs
    /\ (arg_distro a <> [] ->
        exists d, In d (arg_distro a) /\ In (EvGet (download_url cl d)) evs)
    /\ (r = Ok tt ->
        forall d, In d (arg_distro a) ->
          In (EvGet (download_url cl d)) evs
          /\ In (EvRename (download_file cl d) (save_file cl d)) evs)
    /\ (r = Ok tt \/ exists e', r = Raise (ExceptionGroup e')).
Proof.
  intros Hrun. unfold main_download in Hrun.
  set (marker := (save_dir cl, DOWNLOADED_VERSION_FILE)) in *.
  set (w2 := mkWorld (delete marker (fs w1)) (log w1 ++ [EvUnlink marker])
               (progress w1) (console w1)).
  assert (unlink_missing_ok marker w1 = (Ok tt, w2)) as Hunlink by reflexivity.
  rewrite (bind_run_ok _ _ _ _ _ Hunlink) in Hrun.
  destruct (task_group env cl schedule (arg_distro a) w2) as [rg w3] eqn:Hgroup.
  destruct (task_group_spec env cl marker schedule (arg_distro a) w2 rg w3
              (marker_not_task_path cl) Hgroup) as ((evs & Hlog & Hall) & _ & Hres).
  destruct (task_group_requested _ _ _ _ _ _ _ Hgroup) as [Hsome Hevery].
  assert (forall d, requested cl d w2 w3 -> In (EvGet (download_url cl d)) evs) as Hget.
  { intros d (evs' & Hlog' & Hin). rewrite Hlog in Hlog'.
    apply app_inv_head in Hlog'. subst evs'. exact Hin. }
  assert (Forall (fun e => e <> EvGet LATEST_RELEASE_URL) evs) as Hnot.
  { eapply Forall_impl; [exact Hall|]. intros e He.
    eapply group_event_not_resolver, He. }
  destruct rg as [[]|e].
  - rewrite (bind_run_ok _ _ _ _ _ Hgroup) in Hrun.
    unfold write_text, mbind, M_bind, bind, emit, set_fs in Hrun. simpl in Hrun.
    injection Hrun as <- <-.
    exists (evs ++ [EvWriteText marker (marker_text dv (requested_version cl))])%list.
    split; [simpl; rewrite Hlog; simpl; rewrite <- !app_assoc; reflexivity|].
    split; [apply Forall_app; split; [exact Hnot|]; repeat constructor; discriminate|].
    split; [|split; [|left; reflexivity]].
    + intros Hne. destruct (Hsome Hne) as (d & Hd & Hreq).
      exists d. split; [exact Hd|]. apply in_or_app. left. exact (Hget d Hreq).
    + intros _ d Hd. split; apply in_or_app; left.
      * exact (Hget d (Hevery eq_refl d Hd)).
      * destruct (Hres d Hd) as [_ (evs' & Hlog' & Hin)]. rewrite Hlog in Hlog'.
        apply app_inv_head in Hlog'. subst evs'. exact Hin.
  - rewrite (bind_run_raise _ _ _ _ _ Hgroup) in Hrun. injection Hrun as <- <-.
    exists evs.
    split; [rewrite Hlog; simpl; rewrite <- app_assoc; reflexivity|].
    split; [exact Hnot|].
    split; [|split; [discriminate | right; destruct Hres as (e' & ->); eauto]].
    intros Hne. destruct (Hsome Hne) as (d & Hd & Hreq).
    exists d. split; [exact Hd | exact (Hget d Hreq)].
Qed.

(** [C4] With a marker present and the selector [latest]: when the version
    the resolver returns equals the marker version the run exits with
    status 0; when it is strictly older the run exits with status -10; in
    both cases no file is changed and the only request made is the one to
    the resolver.  When it is newer the run goes on to download: right
    after the request to the resolver it removes the marker file, it
    requests the archive of at least one of the platforms (of every one of
    them, each renamed into place, when the run returns), and it ends by
    returning or with the exception group of the download tasks, never
    with an exit. *)
Theorem latest_reconciliation env a schedule w u t downloaded latest :
  credentials env = Some (u, t) ->
  arg_version a = "latest" ->
  get_downloaded_version (fs w) (version_file_of a) = Ok (Some downloaded) ->
  (get_latest_version env (arg_build a) w).1 = Ok latest ->
  (latest = downloaded ->
     (main env a schedule w).1 = Raise (SystemExit 0)
     /\ fs (main env a schedule w).2 = fs w
     /\ log (main env a schedule w).2 = (log w ++ [EvGet LATEST_RELEASE_URL])%list)
  /\ (version_lt latest downloaded ->
        (main env a schedule w).1 = Raise (SystemExit (-10))
        /\ -10 <> 0
        /\ fs (main env a schedule w).2 = fs w
        /\ log (main env a schedule w).2 = (log w ++ [EvGet LATEST_RELEASE_URL])%list)
  /\ (version_lt downloaded latest ->
        exists cl w1,
          main_decide env a w = (Ok (cl, Some downloaded), w1)
          /\ requested_version cl = Latest
          /\ main env a schedule w
             = main_download env a schedule cl (Some downloaded) w1
          /\ exists evs,
               log (main env a schedule w).2
               = (log w ++ EvGet LATEST_RELEASE_URL
                    :: EvUnlink (version_file_of a) :: evs)%list
               /\ (arg_distro a <> [] ->
                   exists d, In d (arg_distro a)
                             /\ In (EvGet (download_url cl d)) evs)
               /\ ((main env a schedule w).1 = Ok tt ->
                   forall d, In d (arg_distro a) ->
                     In (EvGet (download_url cl d)) evs
                     /\ In (EvRename (download_file cl d) (save_file cl d)) evs)
               /\ ((main env a schedule w).1 = Ok tt
                   \/ exists e', (main env a schedule w).1
                                 = Raise (ExceptionGroup e'))).
Proof.
  intros Hcred Hsel Hread Hlatest.
  apply get_latest_version_run in Hlatest.
  assert (Hdec : main_decide env a w
    = (if Version.eqb latest downloaded then
         console_print ("Latest version " ++ Version.to_str latest
                          ++ " is already downloaded, nothing to do.") ;;
         raise (SystemExit 0)
       else if Version.ltb latest downloaded then
         console_print "Latest version is older than the downloaded version, wtf?" ;;
         raise (SystemExit (-10))
       else mret (mkClosure Latest (arg_build a) (arg_outdir a)
                    (match arg_tempdir a with Some d => d | None => arg_outdir a end)
                    u t, Some downloaded))
        (mkWorld (fs w) (log w ++ [EvGet LATEST_RELEASE_URL]) (progress w) (console w))).
  { unfold main_decide, mbind, M_bind, bind, mret, M_ret, ret, lift.
    rewrite Hcred, Hsel, String.eqb_refl. cbv beta iota zeta.
    unfold version_file_of in Hread. rewrite Hread. cbv beta iota zeta.
    rewrite Hlatest.
    destruct (Version.eqb latest downloaded); [reflexivity|].
    destruct (Version.ltb latest downloaded); reflexivity. }
  rewrite !main_unfold, Hdec. clear Hdec. split; [|split].
  - intros ->. rewrite (proj2 (version_eqb_eq _ _) eq_refl). simpl. auto.
  - intros Hlt. destruct (version_lt_newer _ _ Hlt) as [Hne _].
    destruct (Version.eqb latest downloaded) eqn:Heq;
      [apply version_eqb_eq in Heq; congruence|].
    rewrite (proj2 (version_ltb_lt _ _) Hlt). simpl. repeat split; lia.
  - intros Hlt. destruct (version_lt_newer _ _ Hlt) as [Hne Hnlt].
    destruct (Version.eqb latest downloaded) eqn:Heq;
      [apply version_eqb_eq in Heq; congruence|].
    destruct (Version.ltb latest downloaded) eqn:Hltb;
      [apply version_ltb_lt in Hltb; tauto|].
    eexists _, _. split; [reflexivity|]. split; [reflexivity|].
    split; [reflexivity|].
    unfold mret, M_ret, ret. cbv beta iota.
    match goal with
    | |- context [main_download env a schedule ?c ?d ?w1] =>
        destruct (main_download env a schedule c d w1) as [r w'] eqn:Hrun
    end.
    destruct (main_download_requests _ _ _ _ _ _ _ _ Hrun)
      as (evs & Hlog & _ & Hsome & Hevery & Hend).
    exists evs. split; [|auto].
    simpl. rewrite Hlog. simpl. rewrite <- app_assoc. reflexivity.
Qed.

Lemma latest_reconciliation_witness :
  let a := sample_args "latest" in
  let same := sample_env "1.1.0" sample_server in
  let newer := sample_env "1.2.0" sample_server in
  let at_1_1_0 := sample_world (Some ("1.1.0" ++ nl)) in
  let at_1_1_1 := sample_world (Some ("1.1.1" ++ nl)) in
  (main same a [] at_1_1_0).1 = Raise (SystemExit 0)
  /\ (main same a [] at_1_1_1).1 = Raise (SystemExit (-10))
  /\ fs (main same a [] at_1_1_1).2 = fs at_1_1_1
  /\ exists cl w1 evs,
       main newer a [] at_1_1_0
       = main_download newer a [] cl (Some (mkVersion 1 1 0)) w1
       /\ log (main newer a [] at_1_1_0).2
          = (log at_1_1_0 ++ EvGet LATEST_RELEASE_URL
               :: EvUnlink (version_file_of a) :: evs)%list
       /\ exists d, In d (arg_distro a) /\ In (EvGet (download_url cl d)) evs.
Proof.
  intros a same newer at_1_1_0 at_1_1_1.
  assert (get_downloaded_version (fs at_1_1_0) (version_file_of a)
          = Ok (Some (mkVersion 1 1 0))) as Hread0 by (vm_compute; reflexivity).
  assert (get_downloaded_version (fs at_1_1_1) (version_file_of a)
          = Ok (Some (mkVersion 1 1 1))) as Hread1 by (vm_compute; reflexivity).
  assert (version_lt (mkVersion 1 1 0) (mkVersion 1 1 1)) as Holder
    by (unfold version_lt; simpl; lia).
  assert (version_lt (mkVersion 1 1 0) (mkVersion 1 2 0)) as Hnewer
    by (unfold version_lt; simpl; lia).
  split; [|split; [|split]].
  - exact (proj1 (proj1 (latest_reconciliation same a [] at_1_1_0 "user" "token"
                           (mkVersion 1 1 0) (mkVersion 1 1 0)
                           eq_refl eq_refl Hread0 eq_refl) eq_refl)).
  - exact (proj1 (proj1 (proj2 (latest_reconciliation same a [] at_1_1_1 "user" "token"
                                  (mkVersion 1 1 1) (mkVersion 1 1 0)
                                  eq_refl eq_refl Hread1 eq_refl)) Holder)).
  - exact (proj1 (proj2 (proj2 (proj1 (proj2
             (latest_reconciliation same a [] at_1_1_1 "user" "token"
                (mkVersion 1 1 1) (mkVersion 1 1 0)
                eq_refl eq_refl Hread1 eq_refl)) Holder)))).
  - destruct (proj2 (proj2 (latest_reconciliation newer a [] at_1_1_0 "user" "token"
                              (mkVersion 1 1 0) (mkVersion 1 2 0)
                              eq_refl eq_refl Hread0 eq_refl)) Hnewer)
      as (cl & w1 & _ & _ & Hmain & evs & Hlog & Hsome & _).
    exists cl, w1, evs. split; [exact Hmain|]. split; [exact Hlog|].
    apply Hsome. discriminate.
Defined.

(** [C7] With a marker present and an explicit version requested: when the
    request equals the marker version the run exits with status 0, no file
    is changed and no request is made; when it differs, older or newer, the
    run goes on to download: its first event is the removal of the marker
    file, it never asks the resolver, it requests the archive of at least
    one of the platforms (of every one of them, each renamed into place,
    when the run returns), and it ends by returning or with the exception
    group of the download tasks, never with an exit. *)
Theorem explicit_reconciliation env a schedule w u t downloaded requested :
  credentials env = Some (u, t) ->
  arg_version a <> "latest" ->
  Version.from_str (arg_version a) = Ok requested ->
  get_downloaded_version (fs w) (version_file_of a) = Ok (Some downloaded) ->
  (requested = downloaded ->
     (main env a schedule w).1 = Raise (SystemExit 0)
     /\ fs (main env a schedule w).2 = fs w
     /\ log (main env a schedule w).2 = log w)
  /\ (requested <> downloaded ->
        let cl := mkClosure (Exact requested) (arg_build a) (arg_outdir a)
                    (match arg_tempdir a with Some d => d | None => arg_outdir a end)
                    u t in
        main_decide env a w = (Ok (cl, Some downloaded), w)
        /\ main env a schedule w = main_download env a schedule cl (Some downloaded) w
        /\ exists evs,
             log (main env a schedule w).2
             = (log w ++ EvUnlink (version_file_of a) :: evs)%list
             /\ Forall (fun e => e <> EvGet LATEST_RELEASE_URL) evs
             /\ (arg_distro a <> [] ->
                 exists d, In d (arg_distro a)
                           /\ In (EvGet (download_url cl d)) evs)
             /\ ((main env a schedule w).1 = Ok tt ->
                 forall d, In d (arg_distro a) ->
                   In (EvGet (download_url cl d)) evs
                   /\ In (EvRename (download_file cl d) (save_file cl d)) evs)
             /\ ((main env a schedule w).1 = Ok tt
                 \/ exists e', (main env a schedule w).1
                               = Raise (ExceptionGroup e'))).
Proof.
  intros Hcred Hsel Hreq Hread.
  assert (Hdec : main_decide env a w
    = (if Version.eqb downloaded requested then
         console_print ("Requested version " ++ Version.to_str requested
                          ++ " is already downloaded, nothing to do.") ;;
         raise (SystemExit 0)
       else mret (mkClosure (Exact requested) (arg_build a) (arg_outdir a)
                    (match arg_tempdir a with Some d => d | None => arg_outdir a end)
                    u t, Some downloaded)) w).
  { unfold main_decide, mbind, M_bind, bind, mret, M_ret, ret, lift.
    rewrite Hcred. apply String.eqb_neq in Hsel. rewrite Hsel, Hreq.
    cbv beta iota zeta.
    unfold version_file_of in Hread. rewrite Hread. cbv beta iota zeta.
    destruct (Version.eqb downloaded requested); reflexivity. }
  rewrite !main_unfold, Hdec. clear Hdec. split.
  - intros ->. rewrite (proj2 (version_eqb_eq _ _) eq_refl). simpl. auto.
  - intros Hne cl. subst cl.
    destruct (Version.eqb downloaded requested) eqn:Heq;
      [apply version_eqb_eq in Heq; congruence|].
    split; [reflexivity|]. split; [reflexivity|].
    unfold mret, M_ret, ret. cbv beta iota.
    match goal with
    | |- context [main_download env a schedule ?c ?d ?w1] =>
        destruct (main_download env a schedule c d w1) as [r w'] eqn:Hrun
    end.
    destruct (main_download_requests _ _ _ _ _ _ _ _ Hrun)
      as (evs & Hlog & Hnot & Hsome & Hevery & Hend).
    exists evs. split; [exact Hlog|]. auto.
Qed.

Lemma explicit_reconciliation_witness :
  let env := sample_env "1.2.0" sample_server in
  let w := sample_world (Some ("1.1.0" ++ nl)) in
  (main env (sample_args "1.1.0") [] w).1 = Raise (SystemExit 0)
  /\ log (main env (sample_args "1.1.0") [] w).2 = []
  /\ main env (sample_args "1.0.0") [] w
     = main_download env (sample_args "1.0.0") []
         (mkClosure (Exact (mkVersion 1 0 0)) EXPANSION "out" "out" "user" "token")
         (Some (mkVersion 1 1 0)) w
  /\ exists evs,
       log (main env (sample_args "1.0.0") [] w).2
       = (log w ++ EvUnlink (version_file_of (sample_args "1.0.0")) :: evs)%list
       /\ Forall (fun e => e <> EvGet LATEST_RELEASE_URL) evs
       /\ exists d, In d (arg_distro (sample_args "1.0.0"))
                    /\ In (EvGet (download_url
                                    (mkClosure (Exact (mkVersion 1 0 0)) EXPANSION
                                       "out" "out" "user" "token") d)) evs.
Proof.
  intros env w.
  assert (get_downloaded_version (fs w) (version_file_of (sample_args "1.1.0"))
          = Ok (Some (mkVersion 1 1 0))) as Hread by (vm_compute; reflexivity).
  assert ("1.1.0" <> "latest") as Hsame by discriminate.
  assert ("1.0.0" <> "latest") as Holder by discriminate.
  assert (mkVersion 1 0 0 <> mkVersion 1 1 0) as Hne by discriminate.
  pose proof (explicit_reconciliation env (sample_args "1.1.0") [] w "user" "token"
                (mkVersion 1 1 0) (mkVersion 1 1 0) eq_refl Hsame eq_refl Hread)
    as [Hequal _].
  pose proof (explicit_reconciliation env (sample_args "1.0.0") [] w "user" "token"
                (mkVersion 1 1 0) (mkVersion 1 0 0) eq_refl Holder eq_refl Hread)
    as [_ Hdiffer].
  destruct (Hequal eq_refl) as (Hexit & _ & Hlog).
  split; [exact Hexit|]. split; [exact Hlog|].
  destruct (Hdiffer Hne) as (_ & Hmain & evs & Hlog' & Hnot & Hsome & _).
  split; [exact Hmain|]. exists evs. split; [exact Hlog'|]. split; [exact Hnot|].
  apply Hsome. discriminate.
Defined.

(** ** Download task: what it produces *)

Lemma length_append s t :
  String.length (s ++ t) = (String.length s + String.length t)%nat.
Proof. induction s as [|c s IH]; simpl; [reflexivity | rewrite IH; reflexivity]. Qed.

Lemma append_nil_r s : (s ++ EmptyString)%string = s.
Proof.
  induction s as [|c s IH]; [reflexivity|].
  change (String c (s ++ EmptyString) = String c s). f_equal. exact IH.
Qed.

Lemma append_assoc s t u : ((s ++ t) ++ u)%string = (s ++ (t ++ u))%string.
Proof.
  induction s as [|c s IH]; [reflexivity|].
  change (String c ((s ++ t) ++ u) = String c (s ++ (t ++ u))). f_equal. exact IH.
Qed.




Section DownloadRun.

Variable env : environment.
Variable cl : closure.
Variable d : FactorioDistro.

Abbreviation temp := (download_file cl d).
Abbreviation final := (save_file cl d).

Lemma download_begin_run w :
  download_begin cl d w
  = (Ok (next_task_id (progress w)),
     mkWorld (delete temp (fs w))
       ((log w ++ [EvUnlink temp]) ++ [EvGet (download_url cl d)])
       (progress w ++ [AddTask (next_task_id (progress w))
                         ("Downloading " ++ task_label cl d)])
       (console w)).
Proof. reflexivity. Qed.

Lemma download_respond_run id w :
  download_respond env cl d id w
  = match server env (download_url cl d) (username cl) (token cl) with
    | NetError => (Raise ClientError, w)
    | Response resp =>
        if response_ok resp then
          match match content_length resp with
                | Some h => int h
                | None => Ok 0
                end with
          | Ok total_size =>
              (Ok (body resp, body_ok resp),
               mkWorld (<[temp := EmptyString]> (fs w)) (log w ++ [EvOpen temp])
                 (progress w ++ [SetTotal id total_size]) (console w))
          | Raise e => (Raise e, w)
          end
        else (Raise (ClientResponseError (status resp)), w)
    end.
Proof.
  unfold download_respond. destruct (server _ _ _ _) as [|resp]; [reflexivity|].
  destruct (response_ok resp); simpl; [|reflexivity].
  unfold mbind, M_bind, bind, lift.
  destruct (match content_length resp with Some h => int h | None => Ok 0 end);
    reflexivity.
Qed.

Lemma download_stream_run id chunks : forall w content,
  fs w !! temp = Some content ->
  exists w',
    download_stream cl d id chunks w = (Ok tt, w')
    /\ fs w' !! temp = Some (content ++ joined chunks)%string
    /\ (forall p, p <> temp -> fs w' !! p = fs w !! p)
    /\ progress w' = (progress w ++ advances id chunks)%list.
Proof.
  induction chunks as [|c chunks IH]; intros w content Hcontent.
  - exists w. simpl. rewrite append_nil_r, app_nil_r. auto.
  - set (w1 := mkWorld (alter (fun content => content ++ c)%string temp (fs w))
                 (log w ++ [EvWrite temp (String.length c)])
                 (progress w ++ [Advance id (Z.of_nat (String.length c))])
                 (console w)).
    assert (download_chunk cl d id c w = (Ok tt, w1)) as Hchunk by reflexivity.
    destruct (IH w1 (content ++ c)%string) as (w' & Hrun & Htemp & Hframe & Hprog).
    { simpl. rewrite lookup_alter_eq, Hcontent. reflexivity. }
    exists w'. simpl. unfold mbind, M_bind, bind. rewrite Hchunk.
    split; [exact Hrun|]. split; [|split].
    + rewrite Htemp, append_assoc. reflexivity.
    + intros p Hp. rewrite (Hframe p Hp). simpl. apply lookup_alter_ne. congruence.
    + rewrite Hprog. simpl. rewrite <- app_assoc. reflexivity.
Qed.

Lemma download_finish_run id w content :
  fs w !! temp = Some content ->
  exists w',
    download_finish cl d id true w = (Ok tt, w')
    /\ fs w' !! final = Some content
    /\ fs w' !! temp = None
    /\ (forall p, p <> temp -> p <> final -> fs w' !! p = fs w !! p)
    /\ exists description,
         progress w' = (progress w ++ [SetDescription id description])%list.
Proof.
  intros Hcontent. pose proof (task_paths_distinct cl d) as Hne.
  unfold download_finish, unlink_missing_ok, rename.
  unfold mbind, M_bind, bind, emit, set_fs, report. simpl.
  rewrite lookup_delete_ne, Hcontent by exact Hne. simpl.
  eexists. split; [reflexivity|]. simpl. split; [|split; [|split]].
  - apply lookup_insert_eq.
  - rewrite lookup_insert_ne by exact Hne. apply lookup_delete_eq.
  - intros p Hp Hp'. rewrite lookup_insert_ne, !lookup_delete_ne by congruence.
    reflexivity.
  - eauto.
Qed.

Lemma download_unfold w :
  let id := next_task_id (progress w) in
  let w1 := mkWorld (delete temp (fs w))
              ((log w ++ [EvUnlink temp]) ++ [EvGet (download_url cl d)])
              (progress w ++ [AddTask id ("Downloading " ++ task_label cl d)])
              (console w) in
  download env cl d w
  = match server env (download_url cl d) (username cl) (token cl) with
    | NetError => (Raise ClientError, w1)
    | Response resp =>
        if response_ok resp then
          match match content_length resp with
                | Some h => int h
                | None => Ok 0
                end with
          | Ok total_size =>
              match download_stream cl d id (body resp)
                      (mkWorld (<[temp := EmptyString]> (fs w1)) (log w1 ++ [EvOpen temp])
                         (progress w1 ++ [SetTotal id total_size]) (console w1)) with
              | (Ok _, w3) => download_finish cl d id (body_ok resp) w3
              | (Raise e, w3) => (Raise e, w3)
              end
          | Raise e => (Raise e, w1)
          end
        else (Raise (ClientResponseError (status resp)), w1)
    end.
Proof.
  intros id w1. unfold download, mbind, M_bind, bind.
  rewrite download_begin_run, download_respond_run. fold id. fold w1.
  destruct (server _ _ _ _) as [|resp]; [reflexivity|].
  destruct (response_ok resp); [|reflexivity].
  destruct (match content_length resp with Some h => int h | None => Ok 0 end);
    reflexivity.
Qed.

(** The whole of [download], by the answer of the server. *)
Lemma download_run w :
  let id := next_task_id (progress w) in
  match server env (download_url cl d) (username cl) (token cl) with
  | NetError =>
      exists w', download env cl d w = (Raise ClientError, w')
        /\ fs w' = delete temp (fs w)
  | Response resp =>
      if response_ok resp then
        match match content_length resp with
              | Some h => int h
              | None => Ok 0
              end with
        | Raise e =>
            exists w', download env cl d w = (Raise e, w')
              /\ fs w' = delete temp (fs w)
        | Ok total_size =>
            if body_ok resp then
              exists w' description,
                download env cl d w = (Ok tt, w')
                /\ fs w' !! final = Some (joined (body resp))
                /\ fs w' !! temp = None
                /\ (forall p, p <> temp -> p <> final -> fs w' !! p = fs w !! p)
                /\ progress w'
                   = (progress w
                        ++ AddTask id ("Downloading " ++ task_label cl d)
                        :: SetTotal id total_size
                        :: advances id (body resp)
                        ++ [SetDescription id description])%list
            else
              exists w', download env cl d w = (Raise ClientError, w')
                /\ fs w' !! final = fs w !! final
                /\ fs w' !! temp = Some (joined (body resp))
        end
      else
        exists w',
          download env cl d w = (Raise (ClientResponseError (status resp)), w')
          /\ fs w' = delete temp (fs w)
  end.
Proof.
  intros id. pose proof (download_unfold w) as Hrun. cbv zeta in Hrun. fold id in Hrun.
  destruct (server _ _ _ _) as [|resp]; [eauto|].
  destruct (response_ok resp); [|eauto].
  destruct (match content_length resp with Some h => int h | None => Ok 0 end)
    as [total_size|e]; [|eauto].
  revert Hrun.
  match goal with |- context [download_stream cl d ?i (body resp) ?w2] =>
    destruct (download_stream_run i (body resp) w2 EmptyString)
      as (w3 & Hstream & Htemp & Hframe & Hprog);
      [simpl; apply lookup_insert_eq|]
  end.
  rewrite Hstream. simpl in Htemp, Hframe, Hprog. intros Hrun.
  pose proof (task_paths_distinct cl d) as Hne.
  destruct (body_ok resp).
  - destruct (download_finish_run id w3 _ Htemp)
      as (w4 & Hfin & Hfinal & Hgone & Hframe' & description & Hprog').
    exists w4, description. split; [congruence|]. split; [exact Hfinal|].
    split; [exact Hgone|]. split.
    + intros p Hp Hp'. rewrite (Hframe' p Hp Hp'), (Hframe p Hp).
      rewrite lookup_insert_ne, lookup_delete_ne by congruence. reflexivity.
    + rewrite Hprog', Hprog, <- !app_assoc. reflexivity.
  - eexists. split; [exact Hrun|]. split; [|exact Htemp].
    rewrite (Hframe _ Hne). rewrite lookup_insert_ne, lookup_delete_ne by congruence.
    reflexivity.
Qed.

End DownloadRun.



(** ** Download tasks of a group on distinct platforms *)

Lemma task_paths_disjoint cl d d' :
  d <> d' ->
  save_file cl d' <> save_file cl d /\ save_file cl d' <> download_file cl d
  /\ download_file cl d' <> save_file cl d
  /\ download_file cl d' <> download_file cl d.
Proof.
  intros Hne. destruct d, d'; try congruence;
    repeat split; intros [= H]; try discriminate H; discriminate.
Qed.

Lemma advance_for_app id evs evs' :
  advance_for id (evs ++ evs') = advance_for id evs + advance_for id evs'.
Proof.
  induction evs as [|e evs IH]; simpl; [reflexivity|].
  destruct e; rewrite IH; lia.
Qed.

Lemma advance_for_fresh id evs :
  Forall (fun e => (event_task e < id)%nat) evs -> advance_for id evs = 0.
Proof.
  induction 1 as [|e evs He _ IH]; simpl; [reflexivity|].
  destruct e as [i ?|i ?|i n|i ?]; simpl in He; try exact IH.
  destruct (Nat.eqb_spec i id); [lia|]. rewrite IH. reflexivity.
Qed.

Lemma advance_for_other id id' evs :
  id <> id' -> Forall (fun e => about_task id e \/ is_add_task e = true) evs ->
  advance_for id' evs = 0.
Proof.
  intros Hne. induction 1 as [|e evs He _ IH]; simpl; [reflexivity|].
  destruct e as [i ?|i ?|i n|i ?]; try exact IH.
  destruct He as [He|He]; [|discriminate He]. simpl in He.
  destruct (Nat.eqb_spec i id'); [congruence|]. rewrite IH. reflexivity.
Qed.

Lemma next_task_id_app evs evs' :
  next_task_id (evs ++ evs') = (next_task_id evs + next_task_id evs')%nat.
Proof.
  induction evs as [|e evs IH]; simpl; [reflexivity|].
  destruct (is_add_task e); rewrite IH; reflexivity.
Qed.

Lemma joined_app done rest : joined (done ++ rest) = (joined done ++ joined rest)%string.
Proof.
  induction done as [|c done IH]; simpl; [reflexivity|].
  rewrite IH, append_assoc. reflexivity.
Qed.

Section Interleaved.

Variable env : environment.
Variable cl : closure.

(** The calls on the progress display that one step of a task makes. *)
Lemma task_step_progress t w :
  exists evs,
    progress (task_step env cl t w).2 = (progress w ++ evs)%list
    /\ match task_at t with
       | Created => exists description,
           evs = [AddTask (next_task_id (progress w)) description]
       | AwaitResponse id | Streaming id _ _ =>
           Forall (fun e => about_task id e /\ is_add_task e = false) evs
       | Finished _ | Failed _ => evs = []
       end.
Proof.
  unfold task_step.
  destruct (task_at t) as [|id|id [|c rest] complete|id|e].
  - unfold mbind, M_bind, bind. rewrite download_begin_run. simpl. eauto.
  - unfold mbind, M_bind, bind. rewrite download_respond_run.
    destruct (server _ _ _ _) as [|resp];
      [exists []; simpl; rewrite app_nil_r; auto|].
    destruct (response_ok resp); [|exists []; simpl; rewrite app_nil_r; auto].
    destruct (match content_length resp with Some h => int h | None => Ok 0 end);
      [|exists []; simpl; rewrite app_nil_r; auto].
    simpl. eexists. split; [reflexivity|]. repeat constructor.
  - unfold mbind, M_bind, bind.
    destruct complete; [|exists []; simpl; rewrite app_nil_r; auto].
    unfold download_finish, unlink_missing_ok, rename.
    unfold mbind, M_bind, bind, emit, set_fs, report. simpl.
    destruct (delete _ _ !! _); simpl;
      [eexists; split; [reflexivity|]; repeat constructor
      | exists []; rewrite app_nil_r; auto].
  - simpl. eexists. split; [reflexivity|]. repeat constructor.
  - exists []. simpl. rewrite app_nil_r. auto.
  - exists []. simpl. rewrite app_nil_r. auto.
Qed.

(** How a step moves the view of the task that takes it. *)
Lemma task_step_view files0 evs t w r w' evs' :
  task_view env cl files0 evs t w ->
  Forall (fun e => (event_task e < next_task_id (progress w))%nat) evs ->
  task_step env cl t w = (r, w') ->
  progress w' = (progress w ++ evs')%list ->
  task_view env cl files0 (evs ++ evs')
    (mkTask (task_distro t) (match r with Ok s => s | Raise e => Failed e end)) w'.
Proof.
  intros Hview Hfresh Hstep Hprog.
  pose proof (task_paths_distinct cl (task_distro t)) as Hne.
  unfold task_view, task_step in *. simpl.
  destruct (task_at t) as [|id|id [|c rest] complete|id|e].
  - unfold mbind, M_bind, bind in Hstep. rewrite download_begin_run in Hstep.
    injection Hstep as <- <-. simpl in *.
    apply app_inv_head in Hprog. subst evs'.
    split; [rewrite lookup_delete_ne by congruence; exact Hview|].
    rewrite advance_for_app, (advance_for_fresh _ _ Hfresh). reflexivity.
  - destruct Hview as [Hfinal Hzero].
    unfold mbind, M_bind, bind in Hstep. rewrite download_respond_run in Hstep.
    destruct (server _ _ _ _) as [|resp] eqn:Hserver;
      [injection Hstep as <- <-; exact Hfinal|].
    destruct (response_ok resp) eqn:Hok; [|injection Hstep as <- <-; exact Hfinal].
    destruct (match content_length resp with Some h => int h | None => Ok 0 end);
      [|injection Hstep as <- <-; exact Hfinal].
    injection Hstep as <- <-. simpl in *.
    apply app_inv_head in Hprog. subst evs'.
    exists resp, []. rewrite lookup_insert_eq, lookup_insert_ne by congruence.
    rewrite advance_for_app, Hzero. auto 10.
  - destruct Hview as (resp & done & Hserver & Hok & Hbody & Hend & Htemp & Hfinal & Hsum).
    rewrite app_nil_r in Hbody. subst done.
    unfold mbind, M_bind, bind in Hstep.
    destruct complete; [|injection Hstep as <- <-; exact Hfinal].
    destruct (download_finish_run cl (task_distro t) id w _ Htemp)
      as (w4 & Hfin & Hsaved & Hgone & _ & description & Hprog4).
    rewrite Hfin in Hstep. injection Hstep as <- <-.
    rewrite Hprog4 in Hprog. apply app_inv_head in Hprog. subst evs'.
    exists resp. rewrite advance_for_app, Hsum. simpl. rewrite Z.add_0_r. auto 10.
  - destruct Hview as (resp & done & Hserver & Hok & Hbody & Hend & Htemp & Hfinal & Hsum).
    injection Hstep as <- <-. simpl in *.
    apply app_inv_head in Hprog. subst evs'.
    exists resp, (done ++ [c])%list.
    rewrite lookup_alter_eq, lookup_alter_ne, Htemp by congruence.
    rewrite <- app_assoc, joined_app, advance_for_app, Hsum, length_append.
    change (joined [c]) with (c ++ EmptyString)%string. rewrite append_nil_r.
    simpl. rewrite Nat.eqb_refl.
    repeat split; try assumption; try reflexivity. lia.
  - injection Hstep as <- <-.
    assert (evs' = []) as ->
      by (apply (app_inv_head (progress w)); rewrite app_nil_r; symmetry; exact Hprog).
    rewrite app_nil_r. exact Hview.
  - injection Hstep as <- <-. exact Hview.
Qed.

(** A step of another task leaves the view of a task as it is. *)
Lemma task_view_frame files0 evs evs' t w w' :
  fs w' !! save_file cl (task_distro t) = fs w !! save_file cl (task_distro t) ->
  fs w' !! download_file cl (task_distro t) = fs w !! download_file cl (task_distro t) ->
  (forall id, task_id t = Some id -> advance_for id evs' = 0) ->
  task_view env cl files0 evs t w -> task_view env cl files0 (evs ++ evs') t w'.
Proof.
  intros Hfinal Htemp Hsum. unfold task_view, task_id in *.
  destruct (task_at t) as [|id|id rest complete|id|e];
    rewrite ?Hfinal, ?Htemp, ?advance_for_app, ?(Hsum _ eq_refl), ?Z.add_0_r; auto.
Qed.

Lemma task_step_id t w r w' id :
  task_step env cl t w = (r, w') ->
  task_id (mkTask (task_distro t) (match r with Ok s => s | Raise e => Failed e end))
  = Some id ->
  task_id t = Some id \/ (task_at t = Created /\ id = next_task_id (progress w)).
Proof.
  unfold task_step, task_id. simpl.
  destruct (task_at t) as [|id0|id0 [|c rest] complete|id0|e]; intros Hstep.
  - unfold mbind, M_bind, bind in Hstep. rewrite download_begin_run in Hstep.
    injection Hstep as <- _. intros [= <-]. auto.
  - unfold mbind, M_bind, bind in Hstep.
    destruct (download_respond env cl (task_distro t) id0 w) as [[[chunks complete]|e] w1];
      injection Hstep as <- _; [auto | discriminate].
  - unfold mbind, M_bind, bind in Hstep.
    destruct (download_finish cl (task_distro t) id0 complete w) as [[[]|e] w1];
      injection Hstep as <- _; [auto | discriminate].
  - injection Hstep as <- _. auto.
  - injection Hstep as <- _. auto.
  - injection Hstep as <- _. discriminate.
Qed.

Lemma map_lookup {A B} (f : A -> B) (l : list A) i :
  map f l !! i = f <$> l !! i.
Proof.
  revert i. induction l as [|a l IH]; intros [|i]; simpl; auto.
Qed.

Lemma group_inv_step w0 tasks w evs i t r w' :
  NoDup (map task_distro tasks) ->
  group_inv env cl w0 tasks w evs ->
  tasks !! i = Some t ->
  task_step env cl t w = (r, w') ->
  exists evs',
    group_inv env cl w0
      (<[i := mkTask (task_distro t) (match r with Ok s => s | Raise e => Failed e end)]>
         tasks) w' evs'.
Proof.
  intros Hdup (Hprog & Hfresh & Hbound & Hdistinct & Hviews) Hi Hstep.
  set (t' := mkTask (task_distro t) (match r with Ok s => s | Raise e => Failed e end)).
  destruct (task_step_progress t w) as (evs' & Hprog' & Hshape).
  rewrite Hstep in Hprog'. simpl in Hprog'.
  assert (next_task_id (progress w) <= next_task_id (progress w'))%nat as Hmono
    by (rewrite Hprog', next_task_id_app; lia).
  assert (Hi_len : (i < length tasks)%nat) by (eapply lookup_lt_Some, Hi).
  assert (Hnew : forall id, task_id t' = Some id ->
            task_id t = Some id
            \/ (task_at t = Created /\ id = next_task_id (progress w)))
    by (intros id; apply (task_step_id _ _ _ _ _ Hstep)).
  assert (Hown : forall e, In e evs' ->
            (task_at t = Created /\ is_add_task e = true
             /\ event_task e = next_task_id (progress w)
             /\ next_task_id (progress w') = S (next_task_id (progress w)))
            \/ (exists id, task_id t = Some id /\ about_task id e
                           /\ is_add_task e = false)).
  { intros e He. unfold task_id. destruct (task_at t) as [|id|id rest complete|id|e0].
    - destruct Hshape as (description & ->). destruct He as [<-|[]].
      left. rewrite Hprog', next_task_id_app. simpl. repeat split; lia.
    - right. exists id. split; [reflexivity|].
      apply (proj1 (Forall_forall _ _) Hshape), list_elem_of_In, He.
    - right. exists id. split; [reflexivity|].
      apply (proj1 (Forall_forall _ _) Hshape), list_elem_of_In, He.
    - subst evs'. destruct He.
    - subst evs'. destruct He. }
  exists (evs ++ evs')%list. repeat split.
  - rewrite Hprog', Hprog, app_assoc. reflexivity.
  - apply Forall_app. split.
    + eapply Forall_impl; [exact Hfresh|]. simpl. intros e He. lia.
    + apply Forall_forall. intros e He. apply list_elem_of_In in He.
      destruct (Hown e He) as [(_ & _ & -> & ->) | (id & Hid & Habout & _)]; [lia|].
      destruct e; simpl in *; subst; specialize (Hbound _ _ _ Hi Hid); lia.
  - intros j tj id Hj Hid. destruct (decide (i = j)) as [<-|Hij].
    + rewrite list_lookup_insert_eq in Hj by exact Hi_len. injection Hj as <-.
      destruct (Hnew _ Hid) as [Hold | [Hc ->]].
      * specialize (Hbound _ _ _ Hi Hold). lia.
      * rewrite Hc in Hshape. destruct Hshape as (description & ->).
        rewrite Hprog', next_task_id_app. simpl. lia.
    + rewrite list_lookup_insert_ne in Hj by exact Hij.
      specialize (Hbound _ _ _ Hj Hid). lia.
  - intros j k tj tk id Hjk Hj Hk Hid Hid'.
    destruct (decide (i = j)) as [<-|Hij]; destruct (decide (i = k)) as [<-|Hik];
      try congruence.
    + rewrite list_lookup_insert_eq in Hj by exact Hi_len. injection Hj as <-.
      rewrite list_lookup_insert_ne in Hk by exact Hik.
      destruct (Hnew _ Hid) as [Hold | [_ ->]].
      * exact (Hdistinct _ _ _ _ _ Hik Hi Hk Hold Hid').
      * specialize (Hbound _ _ _ Hk Hid'). lia.
    + rewrite list_lookup_insert_eq in Hk by exact Hi_len. injection Hk as <-.
      rewrite list_lookup_insert_ne in Hj by exact Hij.
      destruct (Hnew _ Hid') as [Hold | [_ ->]].
      * exact (Hdistinct _ _ _ _ _ Hij Hi Hj Hold Hid).
      * specialize (Hbound _ _ _ Hj Hid). lia.
    + rewrite list_lookup_insert_ne in Hj, Hk by assumption.
      exact (Hdistinct _ _ _ _ _ Hjk Hj Hk Hid Hid').
  - intros j tj Hj. destruct (decide (i = j)) as [<-|Hij].
    + rewrite list_lookup_insert_eq in Hj by exact Hi_len. injection Hj as <-.
      exact (task_step_view _ _ _ _ _ _ _ (Hviews _ _ Hi) Hfresh Hstep Hprog').
    + rewrite list_lookup_insert_ne in Hj by exact Hij.
      assert (task_distro t <> task_distro tj) as Hdd.
      { intros Heq. apply Hij. eapply (NoDup_lookup _ _ _ _ Hdup).
        - rewrite map_lookup, Hi. reflexivity.
        - rewrite map_lookup, Hj. simpl. congruence. }
      destruct (task_paths_disjoint cl _ _ Hdd) as (H1 & H2 & H3 & H4).
      apply (task_view_frame _ _ _ _ w); [| | |exact (Hviews _ _ Hj)].
      * eapply (stable_run (same_at _)); [|exact Hstep].
        apply same_at_task_step; assumption.
      * eapply (stable_run (same_at _)); [|exact Hstep].
        apply same_at_task_step; assumption.
      * intros id Hid. destruct (task_id t) as [id'|] eqn:Hid'.
        -- apply (advance_for_other id').
           ++ intros ->. exact (Hdistinct _ _ _ _ _ Hij Hi Hj Hid' Hid).
           ++ apply Forall_forall. intros e He. apply list_elem_of_In in He.
              destruct (Hown e He) as [(_ & Hadd & _) | (id2 & [= <-] & Habout & _)];
                auto.
        -- apply (advance_for_other (S id)); [lia|].
           apply Forall_forall. intros e He. apply list_elem_of_In in He.
           destruct (Hown e He) as [(_ & Hadd & _) | (id2 & Hid2 & _)];
             [auto | discriminate Hid2].
Qed.

Lemma run_schedule_views w0 schedule : forall tasks w evs,
  NoDup (map task_distro tasks) ->
  group_inv env cl w0 tasks w evs ->
  exists tasks' w' evs',
    run_schedule env cl schedule tasks w = (Ok tasks', w')
    /\ map task_distro tasks' = map task_distro tasks
    /\ group_inv env cl w0 tasks' w' evs'.
Proof.
  induction schedule as [|i schedule IH]; intros tasks w evs Hdup Hinv.
  - exists tasks, w, evs. auto.
  - simpl. destruct (tasks !! i) as [t|] eqn:Hi; [|eapply IH; eassumption].
    destruct (task_step env cl t w) as [r w1] eqn:Hstep.
    destruct (group_inv_step _ _ _ _ _ _ _ _ Hdup Hinv Hi Hstep) as (evs1 & Hinv1).
    assert (map task_distro
              (<[i := mkTask (task_distro t)
                        (match r with Ok s => s | Raise e => Failed e end)]> tasks)
            = map task_distro tasks) as Hmap
      by (eapply map_insert_same; [exact Hi | reflexivity]).
    destruct (IH _ w1 evs1 ltac:(rewrite Hmap; exact Hdup) Hinv1)
      as (tasks' & w' & evs' & Hrun & Hmap' & Hinv').
    exists tasks', w', evs'. split; [exact Hrun|]. split; [congruence | exact Hinv'].
Qed.

End Interleaved.

(** The outcome of a download task, as in [C5], when the tasks of a group
    on pairwise distinct platforms take their steps in any order: a task
    whose response status is not a success never finishes and leaves its
    final file as it was; a task that has finished has its final file, no
    temporary file, and the size of the final file is the sum of the
    [advance] updates reported for its progress task. *)
Theorem download_tasks_interleaved env cl schedule distros w tasks w' :
  NoDup distros ->
  run_schedule env cl schedule (map (fun d => mkTask d Created) distros) w
  = (Ok tasks, w') ->
  exists evs,
    progress w' = (progress w ++ evs)%list
    /\ forall i t, tasks !! i = Some t ->
         distros !! i = Some (task_distro t)
         /\ (forall resp,
               server env (download_url cl (task_distro t)) (username cl) (token cl)
               = Response resp ->
               response_ok resp = false ->
               (forall id, task_at t <> Finished id)
               /\ fs w' !! save_file cl (task_distro t)
                  = fs w !! save_file cl (task_distro t))
         /\ (forall id, task_at t = Finished id ->
               exists content,
                 fs w' !! save_file cl (task_distro t) = Some content
                 /\ fs w' !! download_file cl (task_distro t) = None
                 /\ Z.of_nat (String.length content) = advance_for id evs).
Proof.
  intros Hdup Hrun.
  set (tasks0 := map (fun d => mkTask d Created) distros) in *.
  assert (map task_distro tasks0 = distros) as Hmap0
    by (unfold tasks0; rewrite map_map; apply map_id).
  destruct (run_schedule_views env cl w schedule tasks0 w []) as
    (tasks' & w1 & evs & Hrun' & Hmap & Hprog & _ & _ & _ & Hviews).
  { rewrite Hmap0. exact Hdup. }
  { repeat split.
    - symmetry. apply app_nil_r.
    - constructor.
    - intros i t id Hi Hid. unfold tasks0 in Hi. rewrite map_lookup in Hi.
      destruct (distros !! i); [|discriminate Hi]. injection Hi as <-.
      discriminate Hid.
    - intros i j t t' id _ Hi _ Hid. unfold tasks0 in Hi. rewrite map_lookup in Hi.
      destruct (distros !! i); [|discriminate Hi]. injection Hi as <-.
      discriminate Hid.
    - intros i t Hi. unfold tasks0 in Hi. rewrite map_lookup in Hi.
      destruct (distros !! i); [|discriminate Hi]. injection Hi as <-.
      reflexivity. }
  rewrite Hrun in Hrun'. injection Hrun' as <- <-.
  exists evs. split; [exact Hprog|]. intros i t Hi.
  specialize (Hviews i t Hi). split; [|split].
  - rewrite <- Hmap0, <- Hmap, map_lookup, Hi. reflexivity.
  - intros resp Hserver Hbad. unfold task_view in Hviews.
    destruct (task_at t) as [|id|id rest complete|id|e].
    + split; [discriminate | exact Hviews].
    + split; [discriminate | apply Hviews].
    + destruct Hviews as (resp' & done & Hserver' & Hok & _). congruence.
    + destruct Hviews as (resp' & Hserver' & Hok & _). congruence.
    + split; [discriminate | exact Hviews].
  - intros id Hat. unfold task_view in Hviews. rewrite Hat in Hviews.
    destruct Hviews as (resp & _ & _ & Hfinal & Hgone & Hsum). eauto.
Qed.

Lemma download_tasks_interleaved_witness :
  let env := sample_env "1.2.0" refusing_server in
  let run := run_schedule env sample_closure [0; 1; 1; 0; 0; 1; 0; 0]%nat
               (map (fun d => mkTask d Created) [LINUX64; OSX]) (sample_world None) in
  NoDup [LINUX64; OSX]
  /\ run = (Ok [mkTask LINUX64 (Finished 0);
                mkTask OSX (Failed (ClientResponseError 403))], run.2)
  /\ fs run.2 !! ("out", "osx.dmg") = None
  /\ exists content evs,
       progress run.2 = evs
       /\ fs run.2 !! ("out", "linux64.tar.gz") = Some content
       /\ Z.of_nat (String.length content) = advance_for 0 evs.
Proof.
  intros env run.
  assert (NoDup [LINUX64; OSX]) as Hdup.
  { repeat constructor; rewrite ?list_elem_of_In; simpl; intuition discriminate. }
  assert (run = (Ok [mkTask LINUX64 (Finished 0);
                     mkTask OSX (Failed (ClientResponseError 403))], run.2)) as Hrun
    by (vm_compute; reflexivity).
  destruct (download_tasks_interleaved env sample_closure _ _ _ _ _ Hdup Hrun)
    as (evs & Hprog & Htasks).
  destruct (Htasks 0%nat _ eq_refl) as (_ & _ & Hdone).
  destruct (Htasks 1%nat _ eq_refl) as (_ & Hrefused & _).
  destruct (Hdone 0%nat eq_refl) as (content & Hfinal & _ & Hsize).
  destruct (Hrefused (mkResponse 403 None [] true) eq_refl eq_refl) as [_ Hkept].
  split; [exact Hdup|]. split; [exact Hrun|]. split; [exact Hkept|].
  exists content, evs. split; [exact Hprog|]. split; [exact Hfinal | exact Hsize].
Defined.

(** * Further properties of the code *)

(** ** Versions *)

(** The comparison of versions is a strict total order, and the equality
    test decides equality: of two versions exactly one is older, or they
    are the same version. *)
Theorem version_order_total (a b c : FactorioVersion) :
  Version.ltb a a = false
  /\ (Version.ltb a b = true -> Version.ltb b c = true -> Version.ltb a c = true)
  /\ (Version.ltb a b = true \/ a = b \/ Version.ltb b a = true)
  /\ (Version.ltb a b = true -> Version.eqb a b = false /\ Version.ltb b a = false)
  /\ (Version.eqb a b = true <-> a = b).
Proof.
  assert (Hlt : forall x y, Version.ltb x y = false <-> ~ version_lt x y).
  { intros x y. rewrite <- version_ltb_lt. destruct (Version.ltb x y); split;
      congruence. }
  assert (Heq : forall x y : FactorioVersion,
            x = y <-> major x = major y /\ minor x = minor y /\ patch x = patch y).
  { intros [x1 x2 x3] [y1 y2 y3]; simpl. split.
    - intros [= -> -> ->]. auto.
    - intros (-> & -> & ->). reflexivity. }
  split; [apply Hlt; unfold version_lt; lia|].
  split; [rewrite !version_ltb_lt; unfold version_lt; lia|].
  split; [rewrite !version_ltb_lt, Heq; unfold version_lt; lia|].
  split; [|apply version_eqb_eq].
  rewrite version_ltb_lt. intros Hab. split.
  - destruct (Version.eqb a b) eqn:E; [|reflexivity].
    apply version_eqb_eq, Heq in E. unfold version_lt in Hab. lia.
  - apply Hlt. unfold version_lt in *. lia.
Qed.

(** Formatting loses nothing: parsing the text of any version, negative
    components included, gives the version back, so two versions with the
    same text are the same version. *)
Theorem format_injective (a b : FactorioVersion) :
  Version.from_str (Version.to_str a) = Ok a
  /\ (Version.to_str a = Version.to_str b <-> a = b).
Proof.
  split; [apply from_str_to_str|]. split; [|intros ->; reflexivity].
  intros H. pose proof (from_str_to_str a) as Ha. rewrite H, from_str_to_str in Ha.
  congruence.
Qed.

(** ** The files of the platforms *)

(** No two files of the run coincide: the final file and the temporary
    file of a platform differ, the files of two different platforms differ,
    and none of them is the marker file, also when the temporary directory
    is the output directory. *)
Theorem platform_files_distinct cl (d d' : FactorioDistro) :
  d <> d' ->
  save_file cl d <> download_file cl d
  /\ save_file cl d' <> save_file cl d
  /\ save_file cl d' <> download_file cl d
  /\ download_file cl d' <> download_file cl d
  /\ (save_dir cl, DOWNLOADED_VERSION_FILE) <> save_file cl d
  /\ (save_dir cl, DOWNLOADED_VERSION_FILE) <> download_file cl d.
Proof.
  intros Hne. destruct (task_paths_disjoint cl d d' Hne) as (H1 & H2 & _ & H4).
  destruct (marker_not_task_path cl d) as [H5 H6].
  pose proof (task_paths_distinct cl d). auto 10.
Qed.

Lemma platform_files_distinct_witness :
  OSX <> LINUX64
  /\ save_file (mkClosure Latest EXPANSION "out" "out" "user" "token") LINUX64
     <> download_file (mkClosure Latest EXPANSION "out" "out" "user" "token") OSX.
Proof.
  assert (OSX <> LINUX64) as Hne by discriminate.
  split; [exact Hne|].
  exact (proj1 (proj2 (proj2 (platform_files_distinct _ OSX LINUX64 Hne)))).
Defined.

(** ** The marker file, written and read back *)

Lemma split_cons c s :
  is_str_space c = false ->
  split (String c s)
  = match s with
    | EmptyString => [String c EmptyString]
    | String c' _ =>
        if is_str_space c' then String c EmptyString :: split s
        else match split s with
             | h :: t => String c h :: t
             | [] => [String c EmptyString]
             end
    end.
Proof. intros Hc. destruct s; simpl; rewrite Hc; reflexivity. Qed.

Lemma split_single s :
  s <> EmptyString ->
  all_chars (fun c => negb (is_str_space c)) s = true ->
  split (s ++ nl) = [s].
Proof.
  induction s as [|c s IH]; [congruence|]. intros _ Hclean.
  simpl in Hclean. apply andb_true_iff in Hclean as [Hc Hs].
  apply negb_true_iff in Hc.
  change (String c s ++ nl)%string with (String c (s ++ nl)).
  rewrite (split_cons _ _ Hc).
  destruct s as [|c' s'].
  - reflexivity.
  - specialize (IH ltac:(discriminate) Hs).
    change (String c' s' ++ nl)%string with (String c' (s' ++ nl)) in *.
    simpl in Hs. apply andb_true_iff in Hs as [Hc' _]. apply negb_true_iff in Hc'.
    rewrite Hc', IH. reflexivity.
Qed.

Lemma to_str_clean v :
  Version.to_str v <> EmptyString
  /\ all_chars (fun c => negb (is_str_space c)) (Version.to_str v) = true.
Proof.
  assert (Hn : forall n, all_chars (fun c => negb (is_str_space c)) (str_int n) = true).
  { intros n. eapply all_chars_impl; [|apply str_int_numeral].
    intros c Hc. apply is_numeral_facts in Hc as (_ & -> & _). reflexivity. }
  unfold Version.to_str. split.
  - destruct (str_int_first (major v)) as (c & s & -> & _). discriminate.
  - rewrite !all_chars_app, !Hn. reflexivity.
Qed.

Lemma read_written_marker (files : gmap path string) p v :
  files !! p = Some (Version.to_str v ++ nl)%string ->
  get_downloaded_version files p = Ok (Some v).
Proof.
  intros H. destruct (to_str_clean v) as [Hne Hclean].
  unfold get_downloaded_version. rewrite H, (split_single _ Hne Hclean).
  unfold index. simpl. rewrite (strip_id _ _ Hclean), from_str_to_str. reflexivity.
Qed.

(** What the last line of [main] writes, [get_downloaded_version] reads
    back: after the marker text of a version has been written to a file,
    reading that file gives this version, whatever the file held before. *)
Theorem marker_write_read dv v p w :
  get_downloaded_version (fs (write_text p (marker_text dv (Exact v)) w).2) p
  = Ok (Some (match dv with Some downloaded => downloaded | None => v end)).
Proof.
  apply read_written_marker. simpl. rewrite lookup_insert_eq.
  destruct dv; reflexivity.
Qed.

(** A run that finds a version in the marker file and returns normally
    leaves that same version in the marker file, whichever version it was
    asked to download. *)
Theorem returning_run_keeps_marker env a schedule w w' downloaded :
  get_downloaded_version (fs w) (version_file_of a) = Ok (Some downloaded) ->
  main env a schedule w = (Ok tt, w') ->
  fs w' !! version_file_of a = Some (Version.to_str downloaded ++ nl)%string
  /\ get_downloaded_version (fs w') (version_file_of a) = Ok (Some downloaded).
Proof.
  intros Hread Hrun.
  apply main_ok in Hrun as (cl & dv & w1 & Hdec & Hrun).
  apply main_decide_ok in Hdec as (Hdir & _ & Hread' & _).
  rewrite Hread in Hread'. injection Hread' as <-.
  apply main_download_spec in Hrun as (evs & _ & _ & _ & Hmarker).
  rewrite Hdir in Hmarker.
  split; [exact Hmarker | exact (read_written_marker _ _ _ Hmarker)].
Qed.

Lemma returning_run_keeps_marker_witness :
  let env := sample_env "2.0.0" sample_server in
  let a := default_args "1.5.0" in
  let w := sample_world (Some ("1.1.0" ++ nl)) in
  get_downloaded_version (fs w) (version_file_of a) = Ok (Some (mkVersion 1 1 0))
  /\ main env a [3; 2; 1; 0]%nat w = (Ok tt, (main env a [3; 2; 1; 0]%nat w).2)
  /\ get_downloaded_version (fs (main env a [3; 2; 1; 0]%nat w).2) (version_file_of a)
     = Ok (Some (mkVersion 1 1 0)).
Proof.
  intros env a w.
  assert (get_downloaded_version (fs w) (version_file_of a)
          = Ok (Some (mkVersion 1 1 0))) as Hread by (vm_compute; reflexivity).
  assert (main env a [3; 2; 1; 0]%nat w = (Ok tt, (main env a [3; 2; 1; 0]%nat w).2))
    as Hrun by (vm_compute; reflexivity).
  split; [exact Hread|]. split; [exact Hrun|].
  exact (proj2 (returning_run_keeps_marker env a _ w _ _ Hread Hrun)).
Defined.

Lemma main_decide_explicit env a w u t requested downloaded :
  credentials env = Some (u, t) ->
  arg_version a <> "latest" ->
  Version.from_str (arg_version a) = Ok requested ->
  get_downloaded_version (fs w) (version_file_of a) = Ok (Some downloaded) ->
  main_decide env a w
  = (if Version.eqb downloaded requested then
       console_print ("Requested version " ++ Version.to_str requested
                        ++ " is already downloaded, nothing to do.") ;;
       raise (SystemExit 0)
     else mret (mkClosure (Exact requested) (arg_build a) (arg_outdir a)
                  (match arg_tempdir a with Some d => d | None => arg_outdir a end)
                  u t, Some downloaded)) w.
Proof.
  intros Hcred Hsel Hreq Hread.
  unfold main_decide, mbind, M_bind, bind, mret, M_ret, ret, lift.
  rewrite Hcred. apply String.eqb_neq in Hsel. rewrite Hsel, Hreq.
  cbv beta iota zeta.
  unfold version_file_of in Hread. rewrite Hread. cbv beta iota zeta.
  destruct (Version.eqb downloaded requested); reflexivity.
Qed.

(** A first download followed by the same request does nothing: when no
    marker exists, an explicit version is requested and the run returns,
    a second run with the same arguments exits with status 0 without any
    request and without changing any file. *)
Theorem second_run_exits env env' a schedule schedule' w w' u t requested :
  fs w !! version_file_of a = None ->
  arg_version a <> "latest" ->
  Version.from_str (arg_version a) = Ok requested ->
  main env a schedule w = (Ok tt, w') ->
  credentials env' = Some (u, t) ->
  (main env' a schedule' w').1 = Raise (SystemExit 0)
  /\ fs (main env' a schedule' w').2 = fs w'
  /\ log (main env' a schedule' w').2 = log w'.
Proof.
  intros Habsent Hsel Hreq Hrun Hcred.
  apply main_ok in Hrun as (cl & dv & w1 & Hdec & Hrun).
  apply main_decide_ok in Hdec as (Hdir & _ & Hread & Hcl & _).
  unfold get_downloaded_version in Hread. rewrite Habsent in Hread.
  injection Hread as <-.
  apply String.eqb_neq in Hsel as Hsel'. rewrite Hsel' in Hcl.
  destruct Hcl as (v & Hv & Hcl). rewrite Hreq in Hv. injection Hv as <-.
  apply main_download_spec in Hrun as (evs & _ & _ & _ & Hmarker).
  rewrite Hdir, Hcl in Hmarker.
  pose proof (read_written_marker _ _ _ Hmarker) as Hread'.
  rewrite main_unfold.
  rewrite (main_decide_explicit env' a w' u t requested requested Hcred Hsel Hreq Hread').
  rewrite (proj2 (version_eqb_eq _ _) eq_refl). simpl. auto.
Qed.

Lemma second_run_exits_witness :
  let env := sample_env "2.0.0" sample_server in
  let a := default_args "1.5.0" in
  let w := sample_world None in
  let w' := (main env a [0; 1; 2; 3]%nat w).2 in
  fs w !! version_file_of a = None
  /\ main env a [0; 1; 2; 3]%nat w = (Ok tt, w')
  /\ (main env a [] w').1 = Raise (SystemExit 0)
  /\ fs (main env a [] w').2 = fs w'.
Proof.
  intros env a w w'.
  assert (main env a [0; 1; 2; 3]%nat w = (Ok tt, w')) as Hrun
    by (vm_compute; reflexivity).
  assert ("1.5.0" <> "latest") as Hsel by discriminate.
  destruct (second_run_exits env env a _ [] w w' "user" "token" (mkVersion 1 5 0)
              eq_refl Hsel eq_refl Hrun eq_refl) as (Hexit & Hfs & _).
  split; [reflexivity|]. split; [exact Hrun|]. split; [exact Hexit | exact Hfs].
Defined.

(** ** Ends of a run before the download phase *)

Lemma getitem_raises {A} k (d : list (string * A)) e :
  getitem k d = Raise e -> e = KeyError.
Proof.
  induction d as [|[k' v] d IH]; simpl; [intros [= <-]; reflexivity|].
  destruct (String.eqb k k'); [discriminate | exact IH].
Qed.

Lemma get_downloaded_version_raises files p e :
  get_downloaded_version files p = Raise e -> e = IndexError \/ e = ValueError.
Proof.
  unfold get_downloaded_version. destruct (files !! p) as [text|]; [|discriminate].
  unfold index. destruct (split text !! 0%nat) as [token|];
    [|intros [= <-]; auto].
  destruct (Version.from_str _) as [v|e'] eqn:Hv; [discriminate|].
  intros [= <-]. right. eapply from_str_raises, Hv.
Qed.

Lemma get_latest_version_raises env b w e :
  (get_latest_version env b w).1 = Raise e ->
  latest_releases env = Raise e \/ e = KeyError \/ e = ValueError.
Proof.
  unfold get_latest_version, mbind, M_bind, bind, lift, emit. simpl.
  destruct (latest_releases env) as [info|e0]; simpl; [|intros [= <-]; auto].
  destruct (getitem "stable" info) as [stable|e1] eqn:H1; simpl;
    [|intros [= <-]; right; left; eapply getitem_raises, H1].
  destruct (getitem (build_value b) stable) as [s|e2] eqn:H2; simpl;
    [|intros [= <-]; right; left; eapply getitem_raises, H2].
  destruct (Version.from_str s) as [v|e3] eqn:H3; simpl; [discriminate|].
  intros [= <-]. right. right. eapply from_str_raises, H3.
Qed.

Lemma main_decide_world env a w :
  fs (main_decide env a w).2 = fs w
  /\ progress (main_decide env a w).2 = progress w
  /\ (log (main_decide env a w).2 = log w
      \/ log (main_decide env a w).2 = (log w ++ [EvGet LATEST_RELEASE_URL])%list).
Proof.
  unfold main_decide, version_file_of, mbind, M_bind, bind, mret, M_ret, ret, raise, lift.
  destruct (credentials env) as [[u t]|]; [|simpl; auto].
  destruct (String.eqb (arg_version a) "latest").
  - destruct (get_downloaded_version (fs w) _) as [[downloaded|]|]; simpl; auto.
    pose proof (get_latest_version_world env (arg_build a) w) as Hw.
    destruct (get_latest_version env (arg_build a) w) as [[v|] w2];
      simpl in Hw; subst w2; [|simpl; auto].
    destruct (Version.eqb v downloaded); [simpl; auto|].
    destruct (Version.ltb v downloaded); simpl; auto.
  - destruct (Version.from_str (arg_version a)) as [requested|]; [|simpl; auto].
    destruct (get_downloaded_version (fs w) _) as [[downloaded|]|]; simpl; auto.
    destruct (Version.eqb downloaded requested); simpl; auto.
Qed.

(** Whatever ends a run other than a failure of the task group (a missing
    environment variable, a malformed version on the command line or in the
    marker, a failure of the resolver, or an exit) ends it before any file
    is touched or any download is requested: the file system and the
    progress display are as they were, and at most the resolver has been
    asked. *)
Theorem early_end_touches_nothing env a schedule w e w' :
  main env a schedule w = (Raise e, w') ->
  (forall inner, e <> ExceptionGroup inner) ->
  fs w' = fs w /\ progress w' = progress w
  /\ (log w' = log w \/ log w' = (log w ++ [EvGet LATEST_RELEASE_URL])%list).
Proof.
  intros Hrun Hkind. rewrite main_unfold in Hrun.
  pose proof (main_decide_world env a w) as Hworld.
  destruct (main_decide env a w) as [[[cl dv]|e0] w1] eqn:Hdec.
  - apply main_download_spec in Hrun as (evs & _ & _ & _ & inner & ->).
    destruct (Hkind inner eq_refl).
  - injection Hrun as <- <-. exact Hworld.
Qed.

Lemma early_end_touches_nothing_witness :
  let env := mkEnv None (Raise ClientError) sample_server in
  let a := default_args "latest" in
  let w := sample_world (Some ("1.1.0" ++ nl)) in
  main env a [] w = (Raise KeyError, (main env a [] w).2)
  /\ fs (main env a [] w).2 = fs w
  /\ progress (main env a [] w).2 = progress w.
Proof.
  intros env a w.
  assert (main env a [] w = (Raise KeyError, (main env a [] w).2)) as Hrun
    by (vm_compute; reflexivity).
  assert (forall inner, KeyError <> ExceptionGroup inner) as Hkind by discriminate.
  destruct (early_end_touches_nothing env a [] w _ _ Hrun Hkind) as (Hfs & Hprog & _).
  auto.
Defined.

(** The exit statuses of the program's own [sys.exit] calls tell what the
    decision found.  Once the command line has been parsed into [a], and
    when the answer of the resolver is not itself an exit, the run exits
    only with status 0 or -10, and only with a version in the marker file:
    status 0 when the
    version asked for (the one on the command line, or for [latest] the one
    the resolver returns) is the marker version, status -10 when [latest]
    was asked for and the resolver returns a version older than the
    marker version. *)
Theorem exit_status_meaning env a schedule w c w' :
  (forall c', latest_releases env <> Raise (SystemExit c')) ->
  main env a schedule w = (Raise (SystemExit c), w') ->
  exists downloaded,
    get_downloaded_version (fs w) (version_file_of a) = Ok (Some downloaded)
    /\ ((c = 0 /\ arg_version a = "latest"
         /\ (get_latest_version env (arg_build a) w).1 = Ok downloaded)
        \/ (c = 0 /\ arg_version a <> "latest"
            /\ Version.from_str (arg_version a) = Ok downloaded)
        \/ (c = -10 /\ arg_version a = "latest"
            /\ exists latest,
                 (get_latest_version env (arg_build a) w).1 = Ok latest
                 /\ version_lt latest downloaded)).
Proof.
  intros Henv Hrun. rewrite main_unfold in Hrun.
  destruct (main_decide env a w) as [[[cl dv]|e0] w1] eqn:Hdec.
  { apply main_download_spec in Hrun as (evs & _ & _ & _ & inner & Hinner).
    discriminate Hinner. }
  injection Hrun as -> <-. revert Hdec.
  unfold main_decide, version_file_of, mbind, M_bind, bind, mret, M_ret, ret, raise, lift.
  destruct (credentials env) as [[u t]|]; [|discriminate].
  destruct (String.eqb_spec (arg_version a) "latest") as [Hsel|Hsel].
  - destruct (get_downloaded_version (fs w) _) as [[downloaded|]|e1] eqn:Hread;
      [| discriminate
       | intros [= -> _]; apply get_downloaded_version_raises in Hread as [|];
         discriminate].
    destruct (get_latest_version env (arg_build a) w) as [[v|e2] w2] eqn:Hlatest.
    + destruct (Version.eqb v downloaded) eqn:Heq.
      * simpl. intros [= <- _]. apply version_eqb_eq in Heq as ->.
        exists downloaded. split; [reflexivity|]. left. auto.
      * destruct (Version.ltb v downloaded) eqn:Hlt; [|discriminate].
        simpl. intros [= <- _]. apply version_ltb_lt in Hlt.
        exists downloaded. split; [reflexivity|]. right. right. eauto.
    + intros [= -> _].
      destruct (get_latest_version_raises env (arg_build a) w (SystemExit c))
        as [Hbad | [|]]; try discriminate.
      * rewrite Hlatest. reflexivity.
      * destruct (Henv _ Hbad).
  - destruct (Version.from_str (arg_version a)) as [requested|e1] eqn:Hreq;
      [|intros [= -> _]; apply from_str_raises in Hreq; discriminate].
    destruct (get_downloaded_version (fs w) _) as [[downloaded|]|e1] eqn:Hread;
      [| discriminate
       | intros [= -> _]; apply get_downloaded_version_raises in Hread as [|];
         discriminate].
    destruct (Version.eqb downloaded requested) eqn:Heq; [|discriminate].
    simpl. intros [= <- _]. apply version_eqb_eq in Heq as ->.
    exists requested. split; [reflexivity|]. right. left. auto.
Qed.

Lemma exit_status_meaning_witness :
  let env := sample_env "1.1.0" sample_server in
  let a := default_args "latest" in
  let w := sample_world (Some ("1.1.1" ++ nl)) in
  (forall c', latest_releases env <> Raise (SystemExit c'))
  /\ main env a [] w = (Raise (SystemExit (-10)), (main env a [] w).2)
  /\ exists downloaded,
       get_downloaded_version (fs w) (version_file_of a) = Ok (Some downloaded).
Proof.
  intros env a w.
  assert (forall c', latest_releases env <> Raise (SystemExit c')) as Henv
    by discriminate.
  assert (main env a [] w = (Raise (SystemExit (-10)), (main env a [] w).2)) as Hrun
    by (vm_compute; reflexivity).
  destruct (exit_status_meaning env a [] w _ _ Henv Hrun) as (downloaded & Hread & _).
  split; [exact Henv|]. split; [exact Hrun|]. exists downloaded. exact Hread.
Defined.

(** The resolver is asked exactly when it is needed for the decision: a
    run sends a request to the latest-releases URL if and only if the
    credentials are there, [latest] is requested and a version was read
    from the marker file.  In particular a first run (no marker) and a run
    for an explicit version never ask it. *)
Theorem resolver_asked_iff env a schedule w :
  exists evs,
    log (main env a schedule w).2 = (log w ++ evs)%list
    /\ (In (EvGet LATEST_RELEASE_URL) evs <->
        credentials env <> None /\ arg_version a = "latest"
        /\ exists downloaded,
             get_downloaded_version (fs w) (version_file_of a) = Ok (Some downloaded)).
Proof.
  assert (Hdec : exists evs0,
            log (main_decide env a w).2 = (log w ++ evs0)%list
            /\ (evs0 = [] \/ evs0 = [EvGet LATEST_RELEASE_URL])
            /\ (evs0 = [EvGet LATEST_RELEASE_URL] <->
                credentials env <> None /\ arg_version a = "latest"
                /\ exists downloaded,
                     get_downloaded_version (fs w) (version_file_of a)
                     = Ok (Some downloaded))).
  { unfold main_decide, version_file_of, mbind, M_bind, bind, mret, M_ret, ret,
      raise, lift.
    assert (Hno : forall P : Prop, ~ P ->
              ((@nil event) = [EvGet LATEST_RELEASE_URL] <-> P))
      by (intros P HP; split; [discriminate | tauto]).
    destruct (credentials env) as [[u t]|];
      [|exists []; simpl; rewrite app_nil_r; split; [reflexivity|];
        split; [auto|]; apply Hno; tauto].
    destruct (String.eqb_spec (arg_version a) "latest") as [Hsel|Hsel].
    - destruct (get_downloaded_version (fs w) _) as [[downloaded|]|];
        [| exists []; simpl; rewrite app_nil_r; split; [reflexivity|];
           split; [auto|]; apply Hno; intros (_ & _ & d & Hd); discriminate Hd ..].
      pose proof (get_latest_version_world env (arg_build a) w) as Hw.
      exists [EvGet LATEST_RELEASE_URL]. split.
      + destruct (get_latest_version env (arg_build a) w) as [[v|] w2];
          simpl in Hw; subst w2; [|reflexivity].
        destruct (Version.eqb v downloaded); [reflexivity|].
        destruct (Version.ltb v downloaded); reflexivity.
      + split; [auto|]. split; [|reflexivity].
        intros _. split; [discriminate|]. eauto.
    - exists []. split.
      + destruct (Version.from_str (arg_version a)) as [requested|];
          [|simpl; rewrite app_nil_r; reflexivity].
        destruct (get_downloaded_version (fs w) _) as [[downloaded|]|];
          simpl; rewrite ?app_nil_r; try reflexivity.
        destruct (Version.eqb downloaded requested); simpl; rewrite ?app_nil_r;
          reflexivity.
      + split; [auto|]. apply Hno. tauto. }
  destruct Hdec as (evs0 & Hlog0 & Hshape & Hiff).
  assert (Hin0 : In (EvGet LATEST_RELEASE_URL) evs0 <-> evs0 = [EvGet LATEST_RELEASE_URL]).
  { destruct Hshape as [-> | ->]; simpl; split; try tauto; try discriminate; auto. }
  rewrite main_unfold.
  destruct (main_decide env a w) as [[[cl dv]|e0] w1] eqn:Hd; simpl in Hlog0.
  2:{ exists evs0. split; [exact Hlog0|]. rewrite <- Hiff. exact Hin0. }
  destruct (main_download env a schedule cl dv w1) as [r w'] eqn:Hrun.
  apply main_download_spec in Hrun as (evs & Hall & Hres).
  assert (Hnone : forall tail : list event,
            (forall e, In e tail -> exists p text, e = EvWriteText p text) ->
            ~ In (EvGet LATEST_RELEASE_URL)
                (EvUnlink (save_dir cl, DOWNLOADED_VERSION_FILE) :: evs ++ tail)).
  { intros tail Htail [H|H]; [discriminate H|].
    apply in_app_or in H as [H|H].
    - destruct (proj1 (Forall_forall _ _) Hall _ (proj2 (list_elem_of_In _ _) H))
        as (d & _ & He).
      destruct He as [He | [He | [He | [[n He] | [He | He]]]]];
        first [ injection He as He; symmetry in He;
                exact (download_url_not_resolver _ _ He)
              | discriminate He ].
    - destruct (Htail _ H) as (p & text & Hp). discriminate Hp. }
  destruct r as [[]|e]; simpl.
  - destruct Hres as (Hlog & _). eexists. split.
    + rewrite Hlog, Hlog0, <- app_assoc. reflexivity.
    + rewrite <- Hiff, <- Hin0, in_app_iff. split; [|auto].
      intros [H|H]; [exact H|]. exfalso. revert H. apply Hnone.
      intros e1 [<-|[]]. eauto.
  - destruct Hres as (Hlog & _). eexists. split.
    + rewrite Hlog, Hlog0, <- app_assoc. reflexivity.
    + rewrite <- Hiff, <- Hin0, in_app_iff. split; [|auto].
      intros [H|H]; [exact H|]. exfalso. revert H.
      rewrite <- (app_nil_r evs). apply Hnone. intros e1 [].
Qed.

(** ** One download task, by the answer of the server *)

(** A download task that returns has published exactly the body: the
    server answered the request of the task with a success status, a
    content-length that is absent or an integer, and a stream that ended
    normally; the final file holds the chunks in the order received and
    nothing else, whatever the final file and the temporary file held
    before and whatever size the header announced; the temporary file is
    gone, every other file is as it was, and the announced size was
    reported as the total of the task. *)
Theorem download_publishes_body env cl d w w' :
  download env cl d w = (Ok tt, w') ->
  exists resp total_size,
    server env (download_url cl d) (username cl) (token cl) = Response resp
    /\ response_ok resp = true
    /\ body_ok resp = true
    /\ match content_length resp with Some h => int h | None => Ok 0 end
       = Ok total_size
    /\ fs w' !! save_file cl d = Some (joined (body resp))
    /\ fs w' !! download_file cl d = None
    /\ (forall p, p <> save_file cl d -> p <> download_file cl d ->
          fs w' !! p = fs w !! p)
    /\ In (SetTotal (next_task_id (progress w)) total_size) (progress w').
Proof.
  intros Hok.
  pose proof (download_run env cl d w) as Hrun. cbv zeta in Hrun.
  destruct (server env (download_url cl d) (username cl) (token cl)) as [|resp].
  { destruct Hrun as (w1 & Hrun & _). rewrite Hrun in Hok. discriminate Hok. }
  destruct (response_ok resp) eqn:Hstatus.
  2: { destruct Hrun as (w1 & Hrun & _). rewrite Hrun in Hok. discriminate Hok. }
  destruct (match content_length resp with Some h => int h | None => Ok 0 end)
    as [total_size|e] eqn:Hsize.
  2: { destruct Hrun as (w1 & Hrun & _). rewrite Hrun in Hok. discriminate Hok. }
  destruct (body_ok resp) eqn:Hend.
  2: { destruct Hrun as (w1 & Hrun & _). rewrite Hrun in Hok. discriminate Hok. }
  destruct Hrun as (w1 & description & Hrun & Hfinal & Hgone & Hframe & Hprog).
  rewrite Hrun in Hok. injection Hok as ->.
  exists resp, total_size. repeat split; try assumption; try reflexivity.
  - intros p Hp Hp'. apply Hframe; assumption.
  - rewrite Hprog. apply in_or_app. right. simpl. auto.
Qed.

Lemma download_publishes_body_witness :
  let env := sample_env "1.2.0" sample_server in
  let w := mkWorld {[ ("out", "osx.dmg") := "old"; ("tmp", "osx.dmg.tmp") := "stale";
                      ("out", "keep.txt") := "mine" ]} [] [] [] in
  (download env sample_closure OSX w).1 = Ok tt
  /\ fs (download env sample_closure OSX w).2 !! ("out", "osx.dmg") = Some "abc"
  /\ fs (download env sample_closure OSX w).2 !! ("tmp", "osx.dmg.tmp") = None
  /\ fs (download env sample_closure OSX w).2 !! ("out", "keep.txt") = Some "mine".
Proof.
  intros env w.
  assert (download env sample_closure OSX w
          = (Ok tt, (download env sample_closure OSX w).2)) as Hrun
    by (vm_compute; reflexivity).
  destruct (download_publishes_body env sample_closure OSX w _ Hrun)
    as (resp & total_size & Hserver & _ & _ & _ & Hfinal & Hgone & Hframe & _).
  injection Hserver as <-.
  split; [rewrite Hrun; reflexivity|].
  split; [exact Hfinal|]. split; [exact Hgone|].
  assert (("out", "keep.txt") <> save_file sample_closure OSX) as H1 by discriminate.
  assert (("out", "keep.txt") <> download_file sample_closure OSX) as H2
    by discriminate.
  exact (eq_trans (Hframe _ H1 H2) eq_refl).
Defined.

(** Two failures of a download task that do not cost the final file.  A
    request that gets no response ends the task with a client error, the
    removal of the temporary file being the only change; a stream that
    breaks after a success status ends the task with an exception, and the
    final file is as it was. *)
Theorem download_failure_modes env cl d w :
  (server env (download_url cl d) (username cl) (token cl) = NetError ->
     (download env cl d w).1 = Raise ClientError
     /\ fs (download env cl d w).2 = delete (download_file cl d) (fs w))
  /\ (forall resp,
        server env (download_url cl d) (username cl) (token cl) = Response resp ->
        response_ok resp = true ->
        body_ok resp = false ->
        (exists e, (download env cl d w).1 = Raise e)
        /\ fs (download env cl d w).2 !! save_file cl d = fs w !! save_file cl d).
Proof.
  pose proof (download_run env cl d w) as Hrun. cbv zeta in Hrun.
  split.
  - intros Hserver. rewrite Hserver in Hrun. destruct Hrun as (w' & -> & Hfs). auto.
  - intros resp Hserver Hok Hend. rewrite Hserver, Hok, Hend in Hrun.
    destruct (match content_length resp with Some h => int h | None => Ok 0 end)
      as [total_size|e].
    + destruct Hrun as (w' & -> & Hfinal & _). eauto.
    + destruct Hrun as (w' & -> & Hfs). simpl. split; [eauto|].
      rewrite Hfs. apply lookup_delete_ne.
      intros Heq. exact (task_paths_distinct cl d (eq_sym Heq)).
Qed.

Lemma download_failure_modes_witness :
  let broken := mkEnv None (Raise ClientError)
                  (fun _ _ _ => Response (mkResponse 200 (Some "3") ["ab"] false)) in
  let w := mkWorld {[ ("out", "osx.dmg") := "old" ]} [] [] [] in
  (exists e, (download broken sample_closure OSX w).1 = Raise e)
  /\ fs (download broken sample_closure OSX w).2 !! ("out", "osx.dmg") = Some "old".
Proof.
  intros broken w.
  destruct (download_failure_modes broken sample_closure OSX w) as (_ & Hbroken).
  destruct (Hbroken (mkResponse 200 (Some "3") ["ab"] false)
              eq_refl eq_refl eq_refl) as (Hraise & Hfinal).
  split; [exact Hraise | exact (eq_trans Hfinal eq_refl)].
Defined.

(** A download task keeps to its own two files, however it ends: every
    other file is as it was, and the only requests and file operations it
    logs are on its own URL, its temporary file and its final file. *)
Theorem download_keeps_to_its_files env cl d w p :
  p <> save_file cl d -> p <> download_file cl d ->
  fs (download env cl d w).2 !! p = fs w !! p
  /\ exists evs,
       log (download env cl d w).2 = (log w ++ evs)%list
       /\ Forall (task_event cl d) evs
       /\ Forall (fun e => touches p e = false) evs.
Proof.
  intros Hfinal Htemp. split.
  - apply (same_at_download env cl d p Hfinal Htemp w).
  - destruct (logged_download env cl d w) as (evs & Hlog & Hall).
    exists evs. split; [exact Hlog|]. split; [exact Hall|].
    eapply Forall_impl; [exact Hall|]. simpl.
    intros e [-> | [-> | [-> | [[n ->] | [-> | ->]]]]]; simpl;
      rewrite ?bool_decide_eq_false_2 by assumption; reflexivity.
Qed.

Lemma download_keeps_to_its_files_witness :
  let env := sample_env "1.2.0" refusing_server in
  let w := mkWorld {[ ("out", "linux64.tar.gz") := "other" ]} [] [] [] in
  ("out", "linux64.tar.gz") <> save_file sample_closure OSX
  /\ ("out", "linux64.tar.gz") <> download_file sample_closure OSX
  /\ fs (download env sample_closure OSX w).2 !! ("out", "linux64.tar.gz") = Some "other".
Proof.
  intros env w.
  assert (("out", "linux64.tar.gz") <> save_file sample_closure OSX) as H1
    by discriminate.
  assert (("out", "linux64.tar.gz") <> download_file sample_closure OSX) as H2
    by discriminate.
  split; [exact H1|]. split; [exact H2|].
  exact (eq_trans (proj1 (download_keeps_to_its_files env sample_closure OSX w _ H1 H2))
           eq_refl).
Defined.

(** ** The files after a run, whatever the interleaving *)

Lemma run_schedule_app env cl s1 : forall s2 tasks w,
  run_schedule env cl (s1 ++ s2) tasks w
  = match run_schedule env cl s1 tasks w with
    | (Ok tasks1, w1) => run_schedule env cl s2 tasks1 w1
    | (Raise e, w1) => (Raise e, w1)
    end.
Proof.
  induction s1 as [|i s1 IH]; intros s2 tasks w; [reflexivity|].
  simpl. destruct (tasks !! i) as [t|]; [|apply IH].
  destruct (task_step env cl t w) as [r w1]. apply IH.
Qed.

Section Resume.

Variable env : environment.
Variable cl : closure.

(** Resuming a task to its end is taking its steps one after the other. *)
Lemma stream_as_steps i d id complete chunks : forall tasks w,
  tasks !! i = Some (mkTask d (Streaming id chunks complete)) ->
  run_schedule env cl (repeat i (S (length chunks))) tasks w
  = (Ok (<[i := mkTask d
                  (ending id ((download_stream cl d id chunks ;;
                               download_finish cl d id complete) w).1)]> tasks),
     ((download_stream cl d id chunks ;; download_finish cl d id complete) w).2).
Proof.
  induction chunks as [|c rest IH]; intros tasks w Hi.
  - simpl. rewrite Hi. unfold task_step. simpl.
    unfold mbind, M_bind, bind, mret, M_ret, ret. simpl.
    destruct (download_finish cl d id complete w) as [[[]|e] w1]; reflexivity.
  - assert (Hlen : (i < length tasks)%nat) by (eapply lookup_lt_Some, Hi).
    change (repeat i (S (length (c :: rest))))
      with (i :: repeat i (S (length rest))).
    cbn [run_schedule]. rewrite Hi. unfold task_step. cbn [task_at task_distro].
    set (w1 := (download_chunk cl d id c w).2).
    assert (download_chunk cl d id c w = (Ok tt, w1)) as Hchunk by reflexivity.
    rewrite (bind_run_ok _ _ _ _ _ Hchunk).
    unfold mret, M_ret, ret.
    rewrite (IH _ w1) by (apply list_lookup_insert_eq; exact Hlen).
    rewrite list_insert_insert_eq.
    assert ((download_stream cl d id (c :: rest) ;;
             download_finish cl d id complete) w
            = (download_stream cl d id rest ;;
               download_finish cl d id complete) w1) as -> by reflexivity.
    reflexivity.
Qed.

Lemma respond_as_steps i d id tasks w :
  tasks !! i = Some (mkTask d (AwaitResponse id)) ->
  exists n id',
    run_schedule env cl (repeat i n) tasks w
    = (Ok (<[i := mkTask d
                (ending id' (task_resume env cl (mkTask d (AwaitResponse id)) w).1)]>
             tasks),
       (task_resume env cl (mkTask d (AwaitResponse id)) w).2).
Proof.
  intros Hi. assert (Hlen : (i < length tasks)%nat) by (eapply lookup_lt_Some, Hi).
  unfold task_resume. cbn [task_at task_distro].
  destruct (download_respond env cl d id w) as [[[chunks complete]|e] w1] eqn:Hresp.
  - exists (S (S (length chunks))), id.
    change (repeat i (S (S (length chunks))))
      with (i :: repeat i (S (length chunks))).
    cbn [run_schedule]. rewrite Hi. unfold task_step. cbn [task_at task_distro].
    rewrite !(bind_run_ok _ _ _ _ _ Hresp).
    unfold mret, M_ret, ret.
    rewrite (stream_as_steps i d id complete chunks _ w1)
      by (apply list_lookup_insert_eq; exact Hlen).
    rewrite list_insert_insert_eq. reflexivity.
  - exists 1%nat, id.
    simpl. rewrite Hi. unfold task_step. cbn [task_at task_distro].
    rewrite !(bind_run_raise _ _ _ _ _ Hresp). reflexivity.
Qed.

Lemma resume_as_steps i t tasks w :
  tasks !! i = Some t ->
  exists n id,
    run_schedule env cl (repeat i n) tasks w
    = (Ok (<[i := mkTask (task_distro t) (ending id (task_resume env cl t w).1)]> tasks),
       (task_resume env cl t w).2).
Proof.
  intros Hi. assert (Hlen : (i < length tasks)%nat) by (eapply lookup_lt_Some, Hi).
  destruct t as [d [|id|id chunks complete|id|e]].
  - set (w1 := (download_begin cl d w).2).
    assert (download_begin cl d w = (Ok (next_task_id (progress w)), w1)) as Hbegin
      by reflexivity.
    destruct (respond_as_steps i d (next_task_id (progress w))
                (<[i := mkTask d (AwaitResponse (next_task_id (progress w)))]> tasks) w1)
      as (n & id' & Hrun); [apply list_lookup_insert_eq; exact Hlen|].
    exists (S n), id'.
    change (repeat i (S n)) with (i :: repeat i n).
    cbn [run_schedule]. rewrite Hi. unfold task_step. cbn [task_at task_distro].
    rewrite (bind_run_ok _ _ _ _ _ Hbegin).
    unfold mret, M_ret, ret. rewrite Hrun, list_insert_insert_eq.
    unfold task_resume. cbn [task_at task_distro]. unfold download.
    rewrite !(bind_run_ok _ _ _ _ _ Hbegin). reflexivity.
  - apply respond_as_steps. exact Hi.
  - exists (S (length chunks)), id.
    rewrite (stream_as_steps i d id complete chunks tasks w Hi). reflexivity.
  - exists 0%nat, id. simpl. rewrite list_insert_id by exact Hi. reflexivity.
  - exists 0%nat, 0%nat. simpl. rewrite list_insert_id by exact Hi. reflexivity.
Qed.

Lemma join_as_schedule : forall suf pre w w',
  join_all env cl suf w = (Ok tt, w') ->
  exists schedule suf',
    run_schedule env cl schedule (pre ++ suf)%list w = (Ok (pre ++ suf')%list, w')
    /\ Forall (fun t => exists id, task_at t = Finished id) suf'.
Proof.
  induction suf as [|t suf IH]; intros pre w w' Hjoin.
  - injection Hjoin as <-. exists [], []. split; [reflexivity | constructor].
  - simpl in Hjoin. apply bind_ok in Hjoin as ([] & w1 & Hres & Hjoin).
    destruct (resume_as_steps (length pre) t (pre ++ t :: suf)%list w)
      as (n & id & Hrun).
    { rewrite lookup_app_r by lia. rewrite Nat.sub_diag. reflexivity. }
    rewrite Hres in Hrun. simpl in Hrun.
    assert (<[length pre := mkTask (task_distro t) (Finished id)]> (pre ++ t :: suf)%list
            = ((pre ++ [mkTask (task_distro t) (Finished id)]) ++ suf)%list) as Hins.
    { rewrite insert_app_r_alt by lia. rewrite Nat.sub_diag. simpl.
      rewrite <- app_assoc. reflexivity. }
    rewrite Hins in Hrun.
    destruct (IH (pre ++ [mkTask (task_distro t) (Finished id)])%list w1 w' Hjoin)
      as (schedule & suf' & Hrun' & Hall).
    exists (repeat (length pre) n ++ schedule)%list,
           (mkTask (task_distro t) (Finished id) :: suf').
    split.
    + rewrite run_schedule_app, Hrun, Hrun', <- app_assoc. reflexivity.
    + constructor; [eauto | exact Hall].
Qed.

End Resume.

Lemma group_inv_created env cl distros w :
  group_inv env cl w (map (fun d => mkTask d Created) distros) w [].
Proof.
  assert (forall i t, map (fun d => mkTask d Created) distros !! i = Some t ->
            task_at t = Created) as Hcreated.
  { intros i t Hi. rewrite map_lookup in Hi.
    destruct (distros !! i); [|discriminate Hi]. injection Hi as <-. reflexivity. }
  split; [symmetry; apply app_nil_r|]. split; [constructor|].
  split; [|split].
  - intros i t id Hi Hid. unfold task_id in Hid. rewrite (Hcreated _ _ Hi) in Hid.
    discriminate Hid.
  - intros i j t t' id _ Hi _ Hid. unfold task_id in Hid.
    rewrite (Hcreated _ _ Hi) in Hid. discriminate Hid.
  - intros i t Hi. unfold task_view. rewrite (Hcreated _ _ Hi). reflexivity.
Qed.

Lemma task_group_files env cl schedule distros w w' :
  NoDup distros ->
  task_group env cl schedule distros w = (Ok tt, w') ->
  forall d, In d distros ->
    exists resp,
      server env (download_url cl d) (username cl) (token cl) = Response resp
      /\ response_ok resp = true
      /\ fs w' !! save_file cl d = Some (joined (body resp))
      /\ fs w' !! download_file cl d = None.
Proof.
  intros Hdup Hgroup d Hd.
  set (tasks0 := map (fun d => mkTask d Created) distros).
  assert (map task_distro tasks0 = distros) as Hmap0
    by (unfold tasks0; rewrite map_map; apply map_id).
  assert (exists tasks1 w1,
            run_schedule env cl schedule tasks0 w = (Ok tasks1, w1)
            /\ join_all env cl tasks1 w1 = (Ok tt, w')) as (tasks1 & w1 & Hrun & Hjoin).
  { unfold task_group in Hgroup. fold tasks0 in Hgroup.
    destruct ((tasks ← run_schedule env cl schedule tasks0 ;
               match first_failure tasks with
               | Some e => raise e
               | None => join_all env cl tasks
               end) w) as [[[]|e] w2] eqn:Hinner; [|discriminate Hgroup].
    injection Hgroup as ->.
    apply bind_ok in Hinner as (tasks1 & w1 & Hrun & Hrest).
    exists tasks1, w1. split; [exact Hrun|].
    destruct (first_failure tasks1); [discriminate Hrest | exact Hrest]. }
  destruct (join_as_schedule env cl tasks1 [] w1 w' Hjoin)
    as (schedule' & tasks2 & Hrun' & Hall).
  simpl in Hrun'.
  destruct (run_schedule_views env cl w (schedule ++ schedule') tasks0 w [])
    as (tasks' & w2 & evs & Hboth & Hmap & _ & _ & _ & _ & Hviews).
  { rewrite Hmap0. exact Hdup. }
  { apply group_inv_created. }
  rewrite run_schedule_app, Hrun, Hrun' in Hboth. injection Hboth as <- <-.
  rewrite Hmap0 in Hmap. rewrite <- Hmap in Hd.
  apply in_map_iff in Hd as (t & <- & Ht).
  apply list_elem_of_In, list_elem_of_lookup in Ht as (i & Hi).
  specialize (Hviews i t Hi).
  destruct (Forall_lookup_1 _ _ _ _ Hall Hi) as (id & Hat).
  unfold task_view in Hviews. rewrite Hat in Hviews.
  destruct Hviews as (resp & Hserver & Hok & Hfinal & Htemp & _).
  exists resp. auto.
Qed.

(** A run that returns has left, for each requested platform, the archive
    under its final name with exactly the bytes the server streamed for that
    platform's URL, and no temporary file, whatever the interleaving of the
    download tasks was, provided the requested platforms are pairwise
    distinct. *)
Theorem returning_run_files env a schedule w cl dv w1 w' :
  NoDup (arg_distro a) ->
  main_decide env a w = (Ok (cl, dv), w1) ->
  main env a schedule w = (Ok tt, w') ->
  forall d, In d (arg_distro a) ->
    exists resp,
      server env (download_url cl d) (username cl) (token cl) = Response resp
      /\ response_ok resp = true
      /\ fs w' !! save_file cl d = Some (joined (body resp))
      /\ fs w' !! download_file cl d = None.
Proof.
  intros Hdup Hdec Hmain d Hd.
  rewrite (main_run _ _ _ _ _ _ _ Hdec) in Hmain. unfold main_download in Hmain.
  apply bind_ok in Hmain as ([] & w2 & _ & Hmain).
  apply bind_ok in Hmain as ([] & w3 & Hgroup & Hwrite).
  destruct (task_group_files _ _ _ _ _ _ Hdup Hgroup d Hd)
    as (resp & Hserver & Hok & Hfinal & Htemp).
  destruct (marker_not_task_path cl d) as [Hs Ht].
  exists resp. split; [exact Hserver|]. split; [exact Hok|].
  unfold write_text, emit, set_fs, mbind, M_bind, bind in Hwrite.
  injection Hwrite as <-. simpl.
  rewrite !lookup_insert_ne by assumption. auto.
Qed.

Lemma returning_run_files_witness :
  let env := sample_env "1.2.0" sample_server in
  let a := default_args "1.2.0" in
  let w := sample_world None in
  let cl := mkClosure (Exact (mkVersion 1 2 0)) EXPANSION "out" "out" "user" "token" in
  let schedule := [3; 1; 0; 0; 3; 2; 1; 1; 7; 0]%nat in
  NoDup (arg_distro a)
  /\ (main env a schedule w).1 = Ok tt
  /\ fs (main env a schedule w).2 !! save_file cl OSX = Some "abc"
  /\ fs (main env a schedule w).2 !! download_file cl OSX = None.
Proof.
  intros env a w cl schedule.
  assert (NoDup (arg_distro a)) as Hdup
    by (simpl; repeat constructor; rewrite ?list_elem_of_In; simpl;
        intuition discriminate).
  assert (main_decide env a w = (Ok (cl, None), w)) as Hdec
    by (vm_compute; reflexivity).
  assert (main env a schedule w = (Ok tt, (main env a schedule w).2)) as Hmain
    by (vm_compute; reflexivity).
  destruct (returning_run_files env a _ w cl None w _ Hdup Hdec Hmain OSX)
    as (resp & Hserver & _ & Hfinal & Htemp); [simpl; auto|].
  injection Hserver as <-.
  split; [exact Hdup|]. split; [rewrite Hmain; reflexivity|].
  split; [exact Hfinal | exact Htemp].
Defined.
